(** * StealthScout: profile refresh, status classification and labelling

    A shallow embedding of the pure core of the StealthScout pipelines:

    - [pipelines/profile_refresh.py]: [compare_profile_changes],
      [prepare_profile_updates];
    - [pipelines/profile_status_classifier.py]: [get_profile_status],
      [check_profile_status_with_verification];
    - [pipelines/insert_profile.py]: [check_repeat_founder],
      [extract_company_role];
    - [streamlit_app/main_functions.py]: [parse_duration].

    Python dictionaries are finite maps ([gmap]) keyed by strings, Python
    sets are [gset]s, and console interaction ([input]) together with the
    examples file is threaded through a small state-and-exception monad.
    Strings are byte strings; case mapping and character classes are the
    ASCII ones. *)

From Stdlib Require Import ZArith Ascii String List Bool Lia.
From stdpp Require Import gmap strings list pretty.

Local Open Scope string_scope.
Local Open Scope Z_scope.

(* ===================================================================== *)
(** ** Strings as Python uses them *)
(* ===================================================================== *)

Module Str.

Definition code (c : ascii) : nat := nat_of_ascii c.

Definition is_upper (c : ascii) : bool :=
  (65 <=? code c)%nat && (code c <=? 90)%nat.


(** The ASCII characters for which [str.isspace] holds; these are also
    the ASCII characters matched by the regular expression class [\s]. *)
Definition is_space (c : ascii) : bool :=
  ((9 <=? code c)%nat && (code c <=? 13)%nat)
  || ((28 <=? code c)%nat && (code c <=? 32)%nat).

Definition lower_ascii (c : ascii) : ascii :=
  if is_upper c then ascii_of_nat (code c + 32) else c.

(** [s.lower()] *)
Fixpoint lower (s : string) : string :=
  match s with
  | EmptyString => EmptyString
  | String c t => String (lower_ascii c) (lower t)
  end.

(** [t.startswith(s)] *)
Fixpoint startswith (s t : string) : bool :=
  match s, t with
  | EmptyString, _ => true
  | String a s', String b t' => if decide (a = b) then startswith s' t' else false
  | String _ _, EmptyString => false
  end.

(** [kw in s]: [kw] occurs in [s] as a contiguous substring. *)
Fixpoint contains (kw s : string) : bool :=
  startswith kw s ||
  match s with
  | EmptyString => false
  | String _ t => contains kw t
  end.

Fixpoint lstrip (s : string) : string :=
  match s with
  | String c t => if is_space c then lstrip t else s
  | EmptyString => EmptyString
  end.

Fixpoint rstrip (s : string) : string :=
  match s with
  | EmptyString => EmptyString
  | String c t =>
      match rstrip t with
      | EmptyString => if is_space c then EmptyString else String c EmptyString
      | t' => String c t'
      end
  end.

(** [s.strip()] *)
Definition strip (s : string) : string := rstrip (lstrip s).

(** [s.split(sep)] for a one-character separator: the fields between
    the occurrences of [sep], with one more field than separators. *)
Fixpoint split (sep : ascii) (s : string) : list string :=
  match s with
  | EmptyString => [EmptyString]
  | String c t =>
      if decide (c = sep) then EmptyString :: split sep t
      else match split sep t with
           | f :: fs => String c f :: fs
           | [] => [String c EmptyString]
           end
  end.

End Str.

(* ===================================================================== *)
(** ** Data model *)
(* ===================================================================== *)

(** The scalar JSON values held by the top-level keys of a profile. *)
Inductive value : Type :=
| VNone
| VInt (n : Z)
| VStr (s : string).

#[global] Instance value_eq_dec : EqDecision value.
Proof. solve_decision. Defined.

(** [str(v)], as used by f-strings. *)
Definition str (v : value) : string :=
  match v with
  | VNone => "None"
  | VInt n => pretty n
  | VStr s => s
  end.

(** One element of [experience] or [education]: a dictionary whose values
    are text, as both scrapers build them. *)
Abbreviation entry := (gmap string string).

(** [d.get(k, dflt)] *)
Definition get (d : entry) (k dflt : string) : string := default dflt (d !! k).

(** Truthiness of [d.get(k)]: the key is present with a non-empty text. *)
Definition truthy (d : entry) (k : string) : bool :=
  match d !! k with
  | Some s => negb (bool_decide (s = ""))
  | None => false
  end.

(** A profile dictionary, split by the type of value each key holds: the
    scalar keys in one map, and the three list-valued keys on their own
    ([None] when the key is absent). *)
Record profile : Type := Profile {
  fields : gmap string value;
  experience : option (list entry);
  education : option (list entry);
  previous_companies : option (list string)
}.

(** [profile.get(k, "")] and [profile.get(k)] on a scalar key. *)
Definition field (p : profile) (k : string) : value := default (VStr "") (fields p !! k).
Definition field_or_none (p : profile) (k : string) : value := default VNone (fields p !! k).

(** A value stored in a change record: a scalar (texts, counts) or the
    listing of a set of company names. *)
Inductive recorded : Type :=
| RVal (v : value)
| RList (l : list string).

#[global] Instance recorded_eq_dec : EqDecision recorded.
Proof. solve_decision. Defined.

Record change : Type := Change {
  old : recorded;
  new : recorded;
  confidence : option string
}.

#[global] Instance change_eq_dec : EqDecision change.
Proof. solve_decision. Defined.

(** The dictionary returned by [compare_profile_changes]. *)
Record change_set : Type := ChangeSet {
  changed_fields : list string;
  changes : gmap string change;
  has_changes : bool
}.

(* ===================================================================== *)
(** ** [compare_profile_changes] (profile_refresh.py) *)
(* ===================================================================== *)

Definition simple_fields : list string :=
  ["first_name"; "last_name"; "headline"; "job_title";
   "location"; "follower_count"; "connection_count"].

Definition exp_fields : list string := ["company"; "title"; "duration"; "date_range"].

(** The three statements executed whenever a difference is found:
    append the field, store the pair, raise the flag. *)
Definition note (f : string) (o n : recorded) (cs : change_set) : change_set :=
  {| changed_fields := changed_fields cs ++ [f];
     changes := <[ f := Change o n None ]> (changes cs);
     has_changes := true |}.

Definition len {A} (l : list A) : value := VInt (Z.of_nat (length l)).

(** [exp.get("company", "") for exp in exps if exp.get("company")] *)
Definition company_names (exps : list entry) : list string :=
  (λ exp, get exp "company" "") <$> List.filter (λ exp, truthy exp "company") exps.

Definition compare_simple (old_profile new_profile : profile)
    (cs : change_set) (f : string) : change_set :=
  let old_value := field old_profile f in
  let new_value := field new_profile f in
  if decide (old_value ≠ new_value)
  then note f (RVal old_value) (RVal new_value) cs
  else cs.

Definition compare_recent (old_first new_first : entry)
    (cs : change_set) (f : string) : change_set :=
  let old_value := get old_first f "" in
  let new_value := get new_first f "" in
  if decide (old_value ≠ new_value)
  then note ("recent_experience_" +:+ f) (RVal (VStr old_value)) (RVal (VStr new_value)) cs
  else cs.

Definition compare_profile_changes (old_profile new_profile : profile) : change_set :=
  let changes0 := ChangeSet [] ∅ false in
  (* Basic field comparison *)
  let changes1 := fold_left (compare_simple old_profile new_profile) simple_fields changes0 in
  (* Experience comparison *)
  let old_exp := default [] (experience old_profile) in
  let new_exp := default [] (experience new_profile) in
  let changes2 :=
    if decide (length old_exp ≠ length new_exp)
    then note "experience_count" (RVal (len old_exp)) (RVal (len new_exp)) changes1
    else changes1 in
  (* First role in detail (most recent) *)
  let changes3 :=
    match old_exp, new_exp with
    | old_first :: _, new_first :: _ =>
        fold_left (compare_recent old_first new_first) exp_fields changes2
    | _, _ => changes2
    end in
  (* Education comparison *)
  let old_edu := default [] (education old_profile) in
  let new_edu := default [] (education new_profile) in
  let changes4 :=
    if decide (length old_edu ≠ length new_edu)
    then note "education_count" (RVal (len old_edu)) (RVal (len new_edu)) changes3
    else changes3 in
  (* Previous companies comparison *)
  let old_companies : gset string := list_to_set (default [] (previous_companies old_profile)) in
  let new_companies : gset string := list_to_set (company_names new_exp) in
  if decide (old_companies ≠ new_companies)
  then note "previous_companies"
         (RList (elements old_companies)) (RList (elements new_companies)) changes4
  else changes4.

(* ===================================================================== *)
(** ** Console and file effects *)
(* ===================================================================== *)

(** A line appended to [profile_status_classification_examples.jsonl]
    (its timestamp is not modelled). *)
Record example : Type := TrainingExample {
  ex_headline : value;
  ex_recent_experience : entry;
  ex_assigned_status : string
}.

(** What the interactive functions read and write: the lines still to be
    typed by the operator, the prompts [input] has shown so far, and the
    examples appended to the examples file. *)
Record console : Type := Console {
  stdin : list string;
  prompts : list string;
  examples_file : list example
}.

Inductive outcome (A : Type) : Type :=
| Returned (a : A)
| Raised.
Arguments Returned {A} a.
Arguments Raised {A}.

Definition io (A : Type) : Type := console → outcome A * console.

#[global] Instance io_ret : MRet io := λ A a c, (Returned a, c).

#[global] Instance io_bind : MBind io := λ A B f m c,
  match m c with
  | (Returned a, c') => f a c'
  | (Raised, c') => (Raised, c')
  end.


(** [try: body except Exception: handler] *)
Definition try_except {A} (body handler : io A) : io A := λ c,
  match body c with
  | (Returned a, c') => (Returned a, c')
  | (Raised, c') => handler c'
  end.

(** [input(prompt)]: shows the prompt, then reads one line; raises
    [EOFError] when no line is left. *)
Definition input (prompt : string) : io string := λ c,
  let c' := Console (tail (stdin c)) (prompts c ++ [prompt]) (examples_file c) in
  match stdin c with
  | line :: _ => (Returned line, c')
  | [] => (Raised, c')
  end.

(** [with open(EXAMPLES_PATH, 'a') as f: f.write(...)] *)
Definition append_example (e : example) : io unit := λ c,
  (Returned (), Console (stdin c) (prompts c) (examples_file c ++ [e])).

Definition nl : string := String "010" EmptyString.

(* ===================================================================== *)
(** ** Status classification (profile_status_classifier.py) *)
(* ===================================================================== *)

(** The completion endpoint: for a prompt, the text of the first choice,
    or [None] when the request raises. *)
Definition OpenAI : Type := string → option string.

(** What [get_profile_status] returns: both components are text. *)
Record candidate : Type := Candidate {
  cand_status : string;
  cand_confidence : string
}.

(** What [check_profile_status_with_verification] returns: the status is
    text, or [None] on the exception path. *)
Record classification : Type := Classification {
  status : value;
  confidence_label : string
}.

#[global] Instance classification_eq_dec : EqDecision classification.
Proof. solve_decision. Defined.

(** The part of the prompt that depends on the profile; the fixed
    instructions and the sampled examples are left out.  Indexing
    [test_profile['experience'][0]] and the four keys of that entry
    raises when they are missing. *)
Definition create_prompt_with_examples (test_profile : profile) : option string :=
  exps ← experience test_profile;
  most_recent_exp ← head exps;
  title ← most_recent_exp !! "title";
  company ← most_recent_exp !! "company";
  duration ← most_recent_exp !! "duration";
  date_range ← most_recent_exp !! "date_range";
  Some ("####HEADLINE: " +:+ str (field test_profile "headline") +:+ nl +:+
        "    ####EXPERIENCE: " +:+ title +:+ " at " +:+ company +:+
        " (" +:+ duration +:+ ", " +:+ date_range +:+ ")").

(** The body of the [try] block of [get_profile_status]; [None] stands
    for any exception raised in it. *)
Definition request_status (client : OpenAI) (test_profile : profile) : option candidate :=
  prompt ← create_prompt_with_examples test_profile;
  content ← client prompt;
  let response_text := Str.lower (Str.strip content) in
  (* status, confidence_label = response_text.split('|') *)
  match Str.split "|" response_text with
  | [status; confidence_label] =>
      Some (Candidate (Str.strip status) (Str.strip confidence_label))
  | _ => None
  end.

Definition get_profile_status (client : OpenAI) (test_profile : profile) : candidate :=
  match request_status client test_profile with
  | Some result => result
  | None => Candidate "" "low"       (* except Exception *)
  end.

Definition training_example (p : profile) (final_status : string) : example :=
  TrainingExample (field_or_none p "headline")
          (match default [] (experience p) with e :: _ => e | [] => ∅ end)
          final_status.

Definition save_when (answer : string) (p : profile) (final_status : string) : io unit :=
  if decide (Str.lower (Str.strip answer) = "y")
  then append_example (training_example p final_status)
  else mret ().

Definition check_profile_status_with_verification
    (client : OpenAI) (profile : profile) (auto_approve : bool) (old_status : value)
    : io classification :=
  try_except
    (let ai_result := get_profile_status client profile in
     let new_status := cand_status ai_result in
     (* Only auto-approve if status is unchanged *)
     let status_unchanged := bool_decide (old_status = VStr new_status) in
     let should_auto_approve := auto_approve && status_unchanged in
     if should_auto_approve
     then mret (Classification (VStr (cand_status ai_result)) (cand_confidence ai_result))
     else
       answer ← input (nl +:+ "Is this classification correct? (y/n): ");
       let is_correct := Str.lower (Str.strip answer) in
       final_status ←
         (if decide (is_correct = "y")
          then
            let final_status := cand_status ai_result in
            save_example ← input "Save this as a training example? (y/n): ";
            save_when save_example profile final_status;;
            mret final_status
          else
            answer ← input "Enter correct status: ";
            let final_status := Str.lower (Str.strip answer) in
            save_incorrect ← input "Save this correction as a training example? (y/n): ";
            save_when save_incorrect profile final_status;;
            mret final_status);
       mret (Classification (VStr final_status) (cand_confidence ai_result)))
    (* except Exception *)
    (mret (Classification VNone "low")).

(* ===================================================================== *)
(** ** [prepare_profile_updates] and the refresh step (profile_refresh.py) *)
(* ===================================================================== *)

Record updates : Type := Updates {
  fields_to_update : profile;
  refresh_metadata : gmap string string
}.

(** Fields that can change without manual verification. *)
Definition non_critical_fields : list string :=
  ["follower_count"; "connection_count"; "recent_experience_duration"].

(** The flag computed from the detected changes and handed to the
    classifier. *)
Definition auto_approve_flag (detected_changes : change_set) : bool :=
  let changed_fields : gset string := list_to_set (changed_fields detected_changes) in
  let critical_changes := changed_fields ∖ list_to_set non_critical_fields in
  bool_decide (size critical_changes = 0%nat) && bool_decide (0 < size changed_fields)%nat.

Definition metadata (now : string) : gmap string string :=
  <[ "last_attempted_refresh_timestamp" := now ]> (<[ "refresh_status" := "success" ]> ∅).

(** The dictionary [updates] before the status is looked at: every field
    is taken from the fresh profile. *)
Definition fresh_fields (new_profile : profile) : profile :=
  {| fields :=
       <[ "first_name" := field new_profile "first_name" ]> (
       <[ "last_name" := field new_profile "last_name" ]> (
       <[ "headline" := field new_profile "headline" ]> (
       <[ "job_title" := field new_profile "job_title" ]> (
       <[ "location" := field new_profile "location" ]> (
       <[ "follower_count" := field new_profile "follower_count" ]> (
       <[ "connection_count" := field new_profile "connection_count" ]> ∅))))));
     experience := Some (default [] (experience new_profile));
     education := Some (default [] (education new_profile));
     previous_companies := Some (company_names (default [] (experience new_profile))) |}.

Definition set_field (k : string) (v : value) (p : profile) : profile :=
  {| fields := <[ k := v ]> (fields p);
     experience := experience p;
     education := education p;
     previous_companies := previous_companies p |}.

(** Returns the updates together with [detected_changes] as the caller
    sees it afterwards: the function appends to the caller's object. *)
Definition prepare_profile_updates (client : OpenAI) (now : string)
    (old_profile new_profile : profile) (detected_changes : change_set)
    : io (updates * change_set) :=
  let updates := Updates (fresh_fields new_profile) (metadata now) in
  let auto_approve := auto_approve_flag detected_changes in
  let old_status := field_or_none old_profile "profile_status" in
  classification ←
    check_profile_status_with_verification client new_profile auto_approve old_status;
  if decide (status classification ≠ old_status)
  then
    mret (Updates
            (set_field "status_confidence_label" (VStr (confidence_label classification))
               (set_field "profile_status" (status classification)
                  (fields_to_update updates)))
            (refresh_metadata updates),
          {| changed_fields := changed_fields detected_changes ++ ["profile_status"];
             changes := <[ "profile_status" :=
                             Change (RVal old_status) (RVal (status classification))
                                    (Some (confidence_label classification)) ]>
                          (changes detected_changes);
             has_changes := has_changes detected_changes |})
  else mret (updates, detected_changes).

(** Steps 3 and 4 of [refresh_single_profile], once the stored and the
    fresh profile have been fetched: what is handed to
    [update_profile_in_db], and the change set reported. *)
Definition refresh_single_profile (client : OpenAI) (now : string)
    (current_profile fresh_profile : profile) : io (updates * option change_set) :=
  let detected_changes := compare_profile_changes current_profile fresh_profile in
  if has_changes detected_changes
  then
    '(updates, detected_changes) ←
      prepare_profile_updates client now current_profile fresh_profile detected_changes;
    mret (updates, Some detected_changes)
  else
    mret (Updates (Profile ∅ None None None) (metadata now), None).

Definition key_of {A} (k : string) (o : option A) : gset string :=
  match o with Some _ => {[ k ]} | None => ∅ end.

(** The keys of the dictionary sent to the database:
    [{**fields_to_update, **refresh_metadata}]. *)
Definition update_keys (u : updates) : gset string :=
  dom (fields (fields_to_update u))
  ∪ key_of "experience" (experience (fields_to_update u))
  ∪ key_of "education" (education (fields_to_update u))
  ∪ key_of "previous_companies" (previous_companies (fields_to_update u))
  ∪ dom (refresh_metadata u).

(* ===================================================================== *)
(** ** Labels (insert_profile.py) *)
(* ===================================================================== *)

Definition founder_keywords : list string :=
  ["founder"; "co-founder"; "co founder"; "chief executive officer"; "ceo"].

(** [any(keyword in role for keyword in founder_keywords)] *)
Definition is_founder_role (experience : entry) : bool :=
  let role := Str.lower (get experience "title" "") in
  existsb (λ keyword, Str.contains keyword role) founder_keywords.

Definition check_repeat_founder (profile : profile) : bool :=
  match default [] (experience profile) with
  | [] => false                       (* if not profile.get('experience') *)
  | exps =>
      let founder_roles := List.filter is_founder_role exps in
      bool_decide (1 < length founder_roles)%nat
  end.




(* ===================================================================== *)
(** ** [parse_duration] (streamlit_app/main_functions.py) *)
(* ===================================================================== *)

(** The pattern [(\d+)\s*(yr|yrs|mo|mos)] with [re.IGNORECASE], as a
    backtracking matcher: each sub-pattern lists the ways it can consume
    a prefix of the text, most preferred first, paired with what is
    left. *)
Module Re.











End Re.




(* ===================================================================== *)
(** ** The scraper and the insert pipeline (insert_profile.py) *)
(* ===================================================================== *)

(** [s.endswith(suffix)] *)
Fixpoint endswith (suffix s : string) : bool :=
  bool_decide (s = suffix)
  || match s with
     | String _ t => endswith suffix t
     | EmptyString => false
     end.

Definition ensure_trailing_slash (url : string) : string :=
  if endswith "/" url then url else url +:+ "/".

(** The [data] object of the scraping service's reply: its scalar keys,
    and its [experiences] and [educations] lists ([None] when the key is
    absent), whose elements hold text. *)
Record profile_data : Type := ProfileData {
  data_fields : gmap string value;
  experiences : option (list entry);
  educations : option (list entry)
}.

Definition scraped_experience (exp : entry) : entry :=
  <[ "company" := get exp "company" "" ]> (
  <[ "company_linkedin_url" := get exp "company_linkedin_url" "" ]> (
  <[ "date_range" := get exp "date_range" "" ]> (
  <[ "duration" := get exp "duration" "" ]> (
  <[ "title" := get exp "title" "" ]> ∅)))).

Definition scraped_education (edu : entry) : entry :=
  <[ "school" := get edu "school" "" ]> (
  <[ "degree" := get edu "degree" "" ]> (
  <[ "field_of_study" := get edu "field_of_study" "" ]> (
  <[ "date_range" := get edu "date_range" "" ]> ∅))).

Definition scalar_keys : list string :=
  ["first_name"; "last_name"; "full_name"; "headline"; "linkedin_url";
   "job_title"; "follower_count"; "connection_count"; "city"; "location"].

(** The profile [linkedin_profile_scraper] builds from a reply with
    status 200. *)
Definition linkedin_profile_scraper (data : profile_data) : profile :=
  {| fields :=
       fold_right (λ k m, <[ k := default (VStr "") (data_fields data !! k) ]> m)
         ∅ scalar_keys;
     experience := Some (scraped_experience <$> default [] (experiences data));
     previous_companies :=
       Some ((λ exp, get exp "company" "")
               <$> List.filter (λ exp, truthy exp "company") (default [] (experiences data)));
     education := Some (scraped_education <$> default [] (educations data)) |}.

(* ===================================================================== *)
(** ** Senior-operator labelling (senior_operator_labeller.py) *)
(* ===================================================================== *)

(** One message of a chat request: the role and the content. *)
Definition message : Type := string * string.

(** The chat endpoint: for the messages sent, the text of the first
    choice, or [None] when the request raises. *)
Definition Chat : Type := list message → option string.


(** A value read from the examples file, and its text in an f-string. *)
Inductive json : Type :=
| JNull
| JBool (b : bool)
| JInt (n : Z)
| JText (s : string).

Definition format (j : json) : string :=
  match j with
  | JNull => "None"
  | JBool true => "True"
  | JBool false => "False"
  | JInt n => pretty n
  | JText s => s
  end.

(** One pre-labelled example of [senior_operator_labelling_examples.json];
    a key that is absent is [None]. *)
Record labeled_example : Type := LabeledExample {
  lex_full_name : option json;
  lex_experience : option (list entry);
  lex_is_senior_operator : option json
}.

(** [sep.join(parts)] *)
Fixpoint join (sep : string) (parts : list string) : string :=
  match parts with
  | [] => ""
  | [part] => part
  | part :: rest => part +:+ sep +:+ join sep rest
  end.

(** [f"- {exp['title']} at {exp['company']} for {exp['duration']}"];
    [None] stands for the [KeyError] of a missing key. *)
Definition experience_line (exp : entry) : option string :=
  title ← exp !! "title";
  company ← exp !! "company";
  duration ← exp !! "duration";
  Some ("- " +:+ title +:+ " at " +:+ company +:+ " for " +:+ duration).

Definition experience_text (exps : list entry) : option string :=
  join nl <$> mapM experience_line exps.

(** The two messages appended for one example. *)
Definition example_messages (example : labeled_example) : option (list message) :=
  exps ← lex_experience example;
  example_experience ← experience_text exps;
  full_name ← lex_full_name example;
  is_senior_operator ← lex_is_senior_operator example;
  Some [("user", "Profile: " +:+ format full_name +:+ nl +:+ "Experience:" +:+ nl
                 +:+ example_experience);
        ("assistant", format is_senior_operator)].

(** [l[:n]] *)
Definition slice_to {A} (n : Z) (l : list A) : list A :=
  if decide (n < 0) then take (length l - Z.to_nat (- n)) l else take (Z.to_nat n) l.

(** The messages of the request, and the call itself.  The system prompt
    and the examples are module-level objects in the source; [None]
    stands for the [None] returned by the exception handler. *)
Definition labelling_messages (system_prompt : string) (profile : profile)
    (examples : list labeled_example) (max_examples : Z) : option (list message) :=
  shots ← mapM example_messages (slice_to max_examples examples);
  exps ← experience profile;
  profile_experience ← experience_text exps;
  let profile_text :=
    "Profile: " +:+ str (default (VStr "Unknown Name") (fields profile !! "full_name"))
    +:+ nl +:+ "Experience:" +:+ nl +:+ profile_experience in
  Some (("system", system_prompt) :: concat shots ++ [("user", profile_text)]).

Definition senior_operator_labelling_call (client : Chat) (system_prompt : string)
    (profile : profile) (examples : list labeled_example) (max_examples : Z)
    : option string :=
  messages ← labelling_messages system_prompt profile examples max_examples;
  content ← client messages;
  Some (Str.strip content).

(* ===================================================================== *)
(** ** The labels of a new profile (insert_profile.py) *)
(* ===================================================================== *)

(** What [check_senior_operator] returns: a boolean, or on one path the
    text the operator typed. *)
Inductive label : Type :=
| LBool (b : bool)
| LText (s : string).

Definition manual_prompt : string := "Please manually input (true/false): ".

Definition check_senior_operator (profile : profile) (client : Chat)
    (system_prompt : string) (labeled_examples : list labeled_example)
    (max_examples : Z) : io label :=
  match default [] (experience profile) with
  | [] => mret (LBool false)          (* if not profile.get('experience') *)
  | _ =>
      try_except
        (match senior_operator_labelling_call client system_prompt profile
                 labeled_examples max_examples with
         | Some ai_response =>
             if decide (Str.lower ai_response = "true") then mret (LBool true)
             else if decide (Str.lower ai_response = "false") then mret (LBool false)
             else mret (LBool false)
         | None =>
             manual_label ← input manual_prompt;
             mret (LText (Str.lower (Str.strip manual_label)))
         end)
        (* except Exception *)
        (manual_label ← input manual_prompt;
         mret (LBool (bool_decide (Str.lower (Str.strip manual_label) = "true"))))
  end.

(** A value of the dictionary of labels. *)
Inductive cell : Type :=
| CVal (v : value)
| CBool (b : bool).

Definition cell_of_label (l : label) : cell :=
  match l with
  | LBool b => CBool b
  | LText s => CVal (VStr s)
  end.

(** The column that holds the role: [None] stands for the
    [UnboundLocalError] raised when the table is neither of the two. *)
Definition company_param (table_name : string) : option string :=
  if decide (table_name = "Current-Employee-Profiles") then Some "role_at_current_company"
  else if decide (table_name = "Unicorn-Stealth-Founder-Profiles")
       then Some "role_at_company_searched"
       else None.

Definition prepare_profile_w_labels (profile_status : classification)
    (is_repeat_founder : bool) (role_search_company : string) (linkedin_url : value)
    (is_senior_operator : label) (table_name : string) : option (gmap string cell) :=
  company_param ← company_param table_name;
  Some (<[ "profile_status" := CVal (status profile_status) ]> (
        <[ "status_confidence_label" := CVal (VStr (confidence_label profile_status)) ]> (
        <[ "linkedin_url" := CVal linkedin_url ]> (
        <[ "is_repeat_founder" := CBool is_repeat_founder ]> (
        <[ company_param := CVal (VStr role_search_company) ]> (
        <[ "is_senior_operator" := cell_of_label is_senior_operator ]> ∅)))))).

(** The columns [update_profile_labels] sends to the database; [None]
    when nothing is sent (the exception is logged). *)
Definition update_profile_labels (profile_data : gmap string cell) (table_name : string)
    : option (gmap string cell) :=
  company_param ← company_param table_name;
  Some (<[ "is_repeat_founder" := default (CBool false) (profile_data !! "is_repeat_founder") ]> (
        <[ company_param := default (CVal (VStr "")) (profile_data !! company_param) ]> (
        <[ "is_senior_operator" :=
             default (CBool false) (profile_data !! "is_senior_operator") ]> (
        <[ "profile_status" := default (CVal VNone) (profile_data !! "profile_status") ]> (
        <[ "status_confidence_label" :=
             default (CVal VNone) (profile_data !! "status_confidence_label") ]> ∅))))).



(* ===================================================================== *)
(** ** Notions used to state the properties *)
(* ===================================================================== *)

(** *** Change detector *)

Definition no_changes : change_set := ChangeSet [] ∅ false.

(** The flag is raised exactly when a field has been listed. *)
Definition flag_agrees (cs : change_set) : Prop :=
  has_changes cs = true ↔ changed_fields cs ≠ [].

Definition both_nonempty (old_profile new_profile : profile) : Prop :=
  default [] (experience old_profile) ≠ [] ∧ default [] (experience new_profile) ≠ [].

Definition recent_experience_fields : list string :=
  ["recent_experience_company"; "recent_experience_title";
   "recent_experience_duration"; "recent_experience_date_range"].

(** The fields that can be listed without looking inside an experience
    entry. *)
Definition coarse_fields : list string :=
  simple_fields ++ ["experience_count"; "education_count"; "previous_companies"].

(** The stored list of previous companies names the same companies as the
    experience entries do.  The insert pipeline and every refresh write
    the two together, so stored profiles satisfy it; a fresh scrape, which
    has no [previous_companies] key, does so only without companies. *)
Definition companies_derived (p : profile) : Prop :=
  (list_to_set (default [] (previous_companies p)) : gset string)
  = list_to_set (company_names (default [] (experience p))).

#[global] Instance companies_derived_dec p : Decision (companies_derived p).
Proof. unfold companies_derived. apply _. Defined.

Definition swap_change (c : change) : change := Change (new c) (old c) (confidence c).

Definition swap_set (cs : change_set) : change_set :=
  ChangeSet (changed_fields cs) (swap_change <$> changes cs) (has_changes cs).

(** *** Classifier *)

Definition confirm_prompt : string := nl +:+ "Is this classification correct? (y/n): ".

(** The candidate, returned as it is. *)
Definition accepted (c : candidate) : classification :=
  Classification (VStr (cand_status c)) (cand_confidence c).

(** The operator was asked to confirm the candidate during a run that
    took the console from [before] to [after]. *)
Definition confirmation_asked (before after : console) : Prop :=
  ∃ more : list string, prompts after = (prompts before ++ confirm_prompt :: more)%list.

(** A client whose requests always fail, and one that always replies
    with the same text. *)
Definition unreachable : OpenAI := λ _, None.
Definition replying (reply : string) : OpenAI := λ _, Some reply.



(** *** Sample profiles *)

Definition role (title company duration date_range : string) : entry :=
  <[ "company" := company ]> (<[ "company_linkedin_url" := "" ]> (
  <[ "date_range" := date_range ]> (<[ "duration" := duration ]> (
  <[ "title" := title ]> ∅)))).

Definition scraped_fields : gmap string value :=
  <[ "first_name" := VStr "Ada" ]> (<[ "last_name" := VStr "Byron" ]> (
  <[ "full_name" := VStr "Ada Byron" ]> (<[ "headline" := VStr "Engineer at Acme" ]> (
  <[ "linkedin_url" := VStr "https://www.linkedin.com/in/ada/" ]> (
  <[ "job_title" := VStr "Engineer" ]> (<[ "follower_count" := VInt 500 ]> (
  <[ "connection_count" := VInt 300 ]> (<[ "city" := VStr "London" ]> (
  <[ "location" := VStr "London, UK" ]> ∅))))))))).

(** A stored profile, as the insert pipeline writes it. *)
Definition stored_ada : profile :=
  {| fields := <[ "profile_status" := VStr "stealth" ]> scraped_fields;
     experience := Some [role "Engineer" "Acme" "1 yr" "Jan 2024 - Present"];
     education := Some [];
     previous_companies := Some ["Acme"] |}.

(** A fresh scrape of the same person, as [fetch_fresh_profile_data]
    builds it: there is no [previous_companies] key. *)
Definition fresh_ada : profile :=
  {| fields := scraped_fields;
     experience := Some [role "Engineer" "Acme" "1 yr" "Jan 2024 - Present"];
     education := Some [];
     previous_companies := None |}.

(** The same scrape one month later. *)
Definition fresh_ada_later : profile :=
  {| fields := scraped_fields;
     experience := Some [role "Engineer" "Acme" "1 yr 1 mo" "Jan 2024 - Present"];
     education := Some [];
     previous_companies := None |}.

Definition quiet : console := Console [] [] [].
Definition operator (lines : list string) : console := Console lines [] [].

(** *** Labels *)

(** [kw] occurs in [s] as a contiguous substring. *)
Definition occurs_in (kw s : string) : Prop := ∃ pre post, s = pre +:+ kw +:+ post.

(** The title of the entry contains one of the founder keywords, letter
    case aside. *)
Definition founder_titled (e : entry) : Prop :=
  ∃ kw, kw ∈ founder_keywords ∧ occurs_in kw (Str.lower (get e "title" "")).

(** [counts P l n]: exactly [n] elements of [l] satisfy [P]. *)
Inductive counts {A} (P : A → Prop) : list A → nat → Prop :=
| counts_nil : counts P [] 0
| counts_yes x l n : P x → counts P l n → counts P (x :: l) (S n)
| counts_no x l n : ¬ P x → counts P l n → counts P (x :: l) n.

Definition one_founder : profile :=
  Profile scraped_fields
    (Some [role "Founder" "Initech" "2 yrs" "Jan 2023 - Present";
           role "Engineer" "Acme" "1 yr" "Jan 2022 - Jan 2023"])
    (Some []) None.

Definition two_founders : profile :=
  Profile scraped_fields
    (Some [role "Founder" "Initech" "2 yrs" "Jan 2023 - Present";
           role "Co-Founder" "Hooli" "1 yr" "Jan 2022 - Jan 2023"])
    (Some []) None.

Definition no_experience : profile :=
  Profile scraped_fields (Some []) (Some []) None.


(** *** Durations *)













(** The text does not begin with a character satisfying [P]. *)
Definition no_lead (P : ascii → bool) (s : string) : Prop :=
  match s with
  | EmptyString => True
  | String c _ => P c = false
  end.


(** *** The detector as a list of comparisons *)

(** Every comparison [compare_profile_changes] makes, in the order it
    makes them: the field name with the old and the new value it would
    record. *)
Definition comparisons (old_profile new_profile : profile)
    : list (string * (recorded * recorded)) :=
  let old_exp := default [] (experience old_profile) in
  let new_exp := default [] (experience new_profile) in
  let old_edu := default [] (education old_profile) in
  let new_edu := default [] (education new_profile) in
  let old_companies : gset string :=
    list_to_set (default [] (previous_companies old_profile)) in
  let new_companies : gset string := list_to_set (company_names new_exp) in
  ((λ f, (f, (RVal (field old_profile f), RVal (field new_profile f)))) <$> simple_fields)
  ++ [("experience_count", (RVal (len old_exp), RVal (len new_exp)))]
  ++ match old_exp, new_exp with
     | old_first :: _, new_first :: _ =>
         (λ f, ("recent_experience_" +:+ f,
                (RVal (VStr (get old_first f "")), RVal (VStr (get new_first f "")))))
           <$> exp_fields
     | _, _ => []
     end
  ++ [("education_count", (RVal (len old_edu), RVal (len new_edu)));
      ("previous_companies", (RList (elements old_companies), RList (elements new_companies)))].

Definition differs (c : string * (recorded * recorded)) : bool :=
  bool_decide (c.2.1 ≠ c.2.2).

Definition record_comparison (cs : change_set) (c : string * (recorded * recorded)) : change_set :=
  note c.1 c.2.1 c.2.2 cs.

(** The field names in the order in which they can be listed. *)
Definition field_order : list string :=
  simple_fields
  ++ ["experience_count"; "recent_experience_company"; "recent_experience_title";
      "recent_experience_duration"; "recent_experience_date_range";
      "education_count"; "previous_companies"].

(** Two roles, and the same with the older role retitled. *)
Definition two_roles (older_title : string) : profile :=
  Profile scraped_fields
    (Some [role "Engineer" "Acme" "1 yr" "Jan 2024 - Present";
           role older_title "Initech" "3 yrs" "Jan 2021 - Jan 2024"])
    (Some []) (Some ["Acme"; "Initech"]).

(** A text in the form the classifier hands on: in lower case, without
    white space at either end, and without the separator [|]. *)
Definition normalised (s : string) : Prop :=
  Str.lower s = s ∧ Str.strip s = s ∧ Str.contains "|" s = false.




(* ===================================================================== *)
(** ** The change detector *)
(* ===================================================================== *)

Section ChangeDetector.

Implicit Types (cs : change_set) (f : string) (p : profile).

Lemma fold_left_preserves {A B} (P : A → Prop) (Q : B → Prop) (step : A → B → A) l a :
  P a → Forall Q l → (∀ a b, P a → Q b → P (step a b)) → P (fold_left step l a).
Proof.
  intros Ha Hl Hstep. revert a Ha.
  induction Hl as [|b l Hb _ IH]; intros a Ha; simpl; [done|].
  apply IH. by apply Hstep.
Qed.

Lemma fold_left_fixed {A B} (step : A → B → A) l a :
  (∀ b, step a b = a) → fold_left step l a = a.
Proof. intros H. induction l as [|b l IH]; simpl; [done|]. by rewrite H. Qed.

Lemma fold_left_commute {A B} (h : A → A) (step1 step2 : A → B → A) l a :
  (∀ a b, step2 (h a) b = h (step1 a b)) →
  fold_left step2 l (h a) = h (fold_left step1 l a).
Proof.
  intros H. revert a. induction l as [|b l IH]; intros a; simpl; [done|].
  by rewrite H, IH.
Qed.

(** Every property established by the empty change set and kept by each
    recording step holds of the result; [F] collects the field names
    that can be recorded. *)
Lemma compare_profile_changes_ind (P : change_set → Prop) (F : string → Prop)
    old_profile new_profile :
  P no_changes →
  (∀ cs f o n, P cs → F f → P (note f o n cs)) →
  Forall F simple_fields →
  F "experience_count" →
  (both_nonempty old_profile new_profile →
     Forall (λ f, F ("recent_experience_" +:+ f)) exp_fields) →
  F "education_count" →
  F "previous_companies" →
  P (compare_profile_changes old_profile new_profile).
Proof.
  intros H0 Hnote Hsimple Hcount Hrecent Hedu Hprev.
  unfold compare_profile_changes.
  set (c1 := fold_left _ simple_fields _).
  assert (P c1) as H1.
  { apply (fold_left_preserves P F); [done..|].
    intros cs f Hcs Hf. unfold compare_simple. case_decide; auto. }
  set (c2 := if decide (length _ ≠ length _) then _ else c1).
  assert (P c2) as H2 by (subst c2; case_decide; auto).
  set (c3 := match default [] (experience old_profile) with [] => c2 | _ => _ end).
  assert (P c3) as H3.
  { subst c3. unfold both_nonempty in Hrecent.
    destruct (default [] (experience old_profile)) as [|o os]; [done|].
    destruct (default [] (experience new_profile)) as [|n ns]; [done|].
    apply (fold_left_preserves P (λ f, F ("recent_experience_" +:+ f)));
      [done|by apply Hrecent|].
    intros cs f Hcs Hf. unfold compare_recent. case_decide; auto. }
  set (c4 := if decide (length (default [] (education old_profile)) ≠ _) then _ else c3).
  assert (P c4) as H4 by (subst c4; case_decide; auto).
  case_decide; auto.
Qed.

Lemma flag_agrees_note f o n cs : flag_agrees (note f o n cs).
Proof.
  unfold flag_agrees; simpl. split; [|done].
  intros _. by destruct (changed_fields cs).
Qed.

Lemma compare_self p :
  companies_derived p → compare_profile_changes p p = no_changes.
Proof.
  intros Hp. unfold compare_profile_changes.
  rewrite fold_left_fixed; last first.
  { intros f. unfold compare_simple. by case_decide. }
  rewrite decide_False by (intros H; by apply H).
  assert (∀ (o : entry) cs, fold_left (compare_recent o o) exp_fields cs = cs) as Hrec.
  { intros o cs. apply fold_left_fixed. intros f. unfold compare_recent. by case_decide. }
  destruct (default [] (experience p)) as [|e es] eqn:He; rewrite ?Hrec.
  all: rewrite decide_False by (intros H; by apply H).
  all: rewrite decide_False; [done|]; intros H; by apply H.
Qed.

Lemma note_swap f o n cs : note f n o (swap_set cs) = swap_set (note f o n cs).
Proof. unfold note, swap_set; simpl. by rewrite fmap_insert. Qed.

Lemma compare_simple_swap a b cs f :
  compare_simple b a (swap_set cs) f = swap_set (compare_simple a b cs f).
Proof.
  unfold compare_simple. repeat case_decide; try done; try congruence.
  apply note_swap.
Qed.

Lemma compare_recent_swap (a b : entry) cs f :
  compare_recent b a (swap_set cs) f = swap_set (compare_recent a b cs f).
Proof.
  unfold compare_recent. repeat case_decide; try done; try congruence.
  apply note_swap.
Qed.

Lemma compare_swap a b :
  companies_derived a → companies_derived b →
  compare_profile_changes b a = swap_set (compare_profile_changes a b).
Proof.
  intros Ha Hb. unfold compare_profile_changes.
  unfold companies_derived in Ha, Hb. rewrite Ha, Hb.
  set (ea := default [] (experience a)). set (eb := default [] (experience b)).
  set (c1 := fold_left (compare_simple a b) simple_fields _).
  set (d1 := fold_left (compare_simple b a) simple_fields _).
  assert (d1 = swap_set c1) as ->.
  { subst c1 d1.
    rewrite <- (fold_left_commute swap_set (compare_simple a b) (compare_simple b a))
      by (intros; apply compare_simple_swap).
    unfold swap_set; simpl. by rewrite fmap_empty. }
  set (c2 := if decide (length ea ≠ length eb) then _ else c1).
  set (d2 := if decide (length eb ≠ length ea) then _ else swap_set c1).
  assert (d2 = swap_set c2) as ->.
  { subst c2 d2. repeat case_decide; try done; try congruence. apply note_swap. }
  set (c3 := match ea with [] => c2 | _ => _ end).
  set (d3 := match eb with [] => swap_set c2 | _ => _ end).
  assert (d3 = swap_set c3) as ->.
  { subst c3 d3. destruct ea as [|x xs], eb as [|y ys]; try done.
    apply fold_left_commute. intros. apply compare_recent_swap. }
  set (c4 := if decide (length (default [] (education a)) ≠ _) then _ else c3).
  set (d4 := if decide (length (default [] (education b)) ≠ _) then _ else swap_set c3).
  assert (d4 = swap_set c4) as ->.
  { subst c4 d4. repeat case_decide; try done; try congruence. apply note_swap. }
  repeat case_decide; try done; try congruence. apply note_swap.
Qed.

End ChangeDetector.

Section ChangeDetectorClaims.

Implicit Types (cs : change_set) (f : string) (p : profile).

Lemma compare_flag_agrees old_profile new_profile :
  flag_agrees (compare_profile_changes old_profile new_profile).
Proof.
  apply (compare_profile_changes_ind flag_agrees (λ _, True)); try done.
  - intros cs f o n _ _. apply flag_agrees_note.
  - by apply Forall_forall.
  - intros _. by apply Forall_forall.
Qed.

(** C6. The change set returned by [compare_profile_changes] has
    [has_changes] true if and only if [changed_fields] is non-empty,
    whatever the two profiles are. *)
Theorem has_changes_iff_changed_fields old_profile new_profile :
  has_changes (compare_profile_changes old_profile new_profile) = true
  ↔ changed_fields (compare_profile_changes old_profile new_profile) ≠ [].
Proof. apply compare_flag_agrees. Qed.

Lemma recent_fields_not_coarse : Forall (λ f, f ∉ coarse_fields) recent_experience_fields.
Proof. repeat constructor; by apply (bool_decide_unpack _). Qed.

Lemma compare_coarse_only old_profile new_profile :
  ¬ both_nonempty old_profile new_profile →
  ∀ f, (f ∈ changed_fields (compare_profile_changes old_profile new_profile)
        ∨ is_Some (changes (compare_profile_changes old_profile new_profile) !! f)) →
       f ∈ coarse_fields.
Proof.
  intros Hempty.
  apply (compare_profile_changes_ind
           (λ cs, ∀ f, f ∈ changed_fields cs ∨ is_Some (changes cs !! f) → f ∈ coarse_fields)
           (λ f, f ∈ coarse_fields)).
  - intros f [H|H]; [by apply elem_of_nil in H|].
    simpl in H. rewrite lookup_empty in H. by destruct H.
  - intros cs g o n IH Hg f [H|H]; simpl in H.
    + apply elem_of_app in H as [H|H]; [by apply IH; left|].
      apply list_elem_of_singleton in H. by subst.
    + destruct (decide (g = f)) as [->|Hne]; [done|].
      rewrite lookup_insert_ne in H by done. apply IH. by right.
  - apply Forall_forall. intros f Hf. unfold coarse_fields. apply elem_of_app. by left.
  - by apply (bool_decide_unpack _).
  - intros H. by destruct Hempty.
  - by apply (bool_decide_unpack _).
  - by apply (bool_decide_unpack _).
Qed.

Lemma compare_experience_count old_profile new_profile :
  let old_exp := default [] (experience old_profile) in
  let new_exp := default [] (experience new_profile) in
  ¬ both_nonempty old_profile new_profile →
  length old_exp ≠ length new_exp →
  "experience_count" ∈ changed_fields (compare_profile_changes old_profile new_profile)
  ∧ changes (compare_profile_changes old_profile new_profile) !! "experience_count"
    = Some (Change (RVal (len old_exp)) (RVal (len new_exp)) None).
Proof.
  intros old_exp new_exp Hempty Hlen. unfold compare_profile_changes.
  fold old_exp new_exp. rewrite (decide_True _ _ Hlen).
  set (c2 := note "experience_count" _ _ _).
  assert (match old_exp with
          | [] => c2
          | old_first :: _ =>
              match new_exp with
              | [] => c2
              | new_first :: _ => fold_left (compare_recent old_first new_first) exp_fields c2
              end
          end = c2) as ->.
  { unfold both_nonempty in Hempty. fold old_exp new_exp in Hempty.
    destruct old_exp, new_exp; try done. destruct Hempty. by split. }
  repeat case_decide; simpl;
    (split; [rewrite ?elem_of_app, ?list_elem_of_singleton; auto|]);
    rewrite ?lookup_insert_ne by done; by rewrite lookup_insert_eq.
Qed.

(** C10. When at least one of the two profiles has an empty experience
    list, no [recent_experience_company], [recent_experience_title],
    [recent_experience_duration] or [recent_experience_date_range]
    change is recorded: only the simple fields, the two counts and
    [previous_companies] can be listed, and a passage between an empty
    and a non-empty experience list is recorded as [experience_count]. *)
Theorem empty_experience_is_coarse old_profile new_profile :
  default [] (experience old_profile) = [] ∨ default [] (experience new_profile) = [] →
  let cs := compare_profile_changes old_profile new_profile in
  let old_exp := default [] (experience old_profile) in
  let new_exp := default [] (experience new_profile) in
  Forall (λ f, (f ∉ changed_fields cs) ∧ changes cs !! f = None) recent_experience_fields
  ∧ (∀ f, f ∈ changed_fields cs → f ∈ coarse_fields)
  ∧ (length old_exp ≠ length new_exp →
     "experience_count" ∈ changed_fields cs
     ∧ changes cs !! "experience_count"
       = Some (Change (RVal (len old_exp)) (RVal (len new_exp)) None)).
Proof.
  intros Hempty cs old_exp new_exp.
  assert (¬ both_nonempty old_profile new_profile) as Hnot.
  { intros [H1 H2]. by destruct Hempty. }
  pose proof (compare_coarse_only _ _ Hnot) as Hcoarse. fold cs in Hcoarse.
  split_and!.
  - eapply Forall_impl; [apply recent_fields_not_coarse|]. simpl.
    intros f Hf. split.
    + intros H. apply Hf. apply Hcoarse. by left.
    + destruct (changes cs !! f) eqn:E; [|done].
      destruct Hf. apply Hcoarse. right. by rewrite E.
  - intros f Hf. apply Hcoarse. by left.
  - by apply compare_experience_count.
Qed.

Lemma empty_experience_is_coarse_witness :
  let gone := Profile scraped_fields (Some []) (Some []) None in
  "experience_count" ∈ changed_fields (compare_profile_changes stored_ada gone)
  ∧ "recent_experience_title" ∉ changed_fields (compare_profile_changes stored_ada gone).
Proof.
  intros gone.
  destruct (empty_experience_is_coarse stored_ada gone) as (Hrecent & _ & Hcount).
  - right. reflexivity.
  - split.
    + apply Hcount. simpl. lia.
    + rewrite Forall_forall in Hrecent. apply (Hrecent "recent_experience_title").
      by apply (bool_decide_unpack _).
Defined.

(** C4, amended. For every profile whose [previous_companies] names the
    same companies as its experience entries (every stored profile),
    comparing the profile with itself reports no change:
    [has_changes] is false, and [changed_fields] and [changes] are
    empty. *)
Theorem compare_same_profile p :
  companies_derived p →
  has_changes (compare_profile_changes p p) = false
  ∧ changed_fields (compare_profile_changes p p) = []
  ∧ changes (compare_profile_changes p p) = ∅.
Proof. intros Hp. by rewrite (compare_self p Hp). Qed.

Lemma compare_same_profile_witness :
  companies_derived stored_ada
  ∧ has_changes (compare_profile_changes stored_ada stored_ada) = false.
Proof.
  assert (companies_derived stored_ada) as H by (vm_compute; reflexivity).
  split; [exact H|]. apply (compare_same_profile stored_ada H).
Defined.

(** C4 as stated fails: a fresh scrape has no [previous_companies] key,
    so compared with itself it reports [previous_companies] as changed
    as soon as one experience entry names a company. *)
Lemma compare_same_fresh_profile :
  has_changes (compare_profile_changes fresh_ada fresh_ada) ≠ false
  ∧ changed_fields (compare_profile_changes fresh_ada fresh_ada) = ["previous_companies"].
Proof. split; [|vm_compute; reflexivity]. vm_compute. discriminate. Qed.

(** C5, amended. For any two profiles whose [previous_companies] names
    the same companies as their experience entries, swapping the
    arguments of [compare_profile_changes] leaves [changed_fields]
    unchanged (same fields, same order) and swaps the old and new value
    of every recorded pair. *)
Theorem compare_swapped a b :
  companies_derived a → companies_derived b →
  changed_fields (compare_profile_changes b a) = changed_fields (compare_profile_changes a b)
  ∧ (∀ f, f ∈ changed_fields (compare_profile_changes b a)
          ↔ f ∈ changed_fields (compare_profile_changes a b))
  ∧ (∀ f c, changes (compare_profile_changes a b) !! f = Some c →
            changes (compare_profile_changes b a) !! f = Some (swap_change c)).
Proof.
  intros Ha Hb. rewrite (compare_swap a b Ha Hb). simpl. split_and!; [done..|].
  intros f c Hc. by rewrite lookup_fmap, Hc.
Qed.

Lemma compare_swapped_witness :
  let moved := Profile (<[ "location" := VStr "Turin" ]> (fields stored_ada))
                 (experience stored_ada) (education stored_ada)
                 (previous_companies stored_ada) in
  changes (compare_profile_changes moved stored_ada) !! "location"
  = Some (Change (RVal (VStr "Turin")) (RVal (VStr "London, UK")) None).
Proof.
  intros moved.
  assert (companies_derived stored_ada) as Ha by (vm_compute; reflexivity).
  assert (companies_derived moved) as Hb by (vm_compute; reflexivity).
  destruct (compare_swapped stored_ada moved Ha Hb) as (_ & _ & Hswap).
  apply (Hswap "location" (Change (RVal (VStr "London, UK")) (RVal (VStr "Turin")) None)).
  vm_compute. reflexivity.
Defined.

(** C5 as stated fails: a stored profile against a fresh scrape of the
    same data shows no change, while the swapped comparison lists
    [previous_companies]. *)
Lemma compare_swapped_stored_fresh :
  ¬ (∀ f, f ∈ changed_fields (compare_profile_changes fresh_ada stored_ada)
          ↔ f ∈ changed_fields (compare_profile_changes stored_ada fresh_ada)).
Proof.
  intros H. specialize (H "previous_companies").
  assert (changed_fields (compare_profile_changes fresh_ada stored_ada)
          = ["previous_companies"]) as E1 by (vm_compute; reflexivity).
  assert (changed_fields (compare_profile_changes stored_ada fresh_ada) = [])
    as E2 by (vm_compute; reflexivity).
  rewrite E1, E2 in H. destruct H as [H _].
  eapply elem_of_nil, H. constructor.
Qed.

End ChangeDetectorClaims.

(* ===================================================================== *)
(** ** Status classification and the refresh step *)
(* ===================================================================== *)

Section Classifier.

Variables (client : OpenAI) (profile : profile).

Lemma verification_skipped old_status con :
  old_status = VStr (cand_status (get_profile_status client profile)) →
  check_profile_status_with_verification client profile true old_status con
  = (Returned (accepted (get_profile_status client profile)), con).
Proof.
  intros ->. unfold check_profile_status_with_verification, try_except.
  rewrite bool_decide_eq_true_2 by done. reflexivity.
Qed.

Lemma verification_asked auto_approve old_status con :
  auto_approve && bool_decide (old_status = VStr (cand_status (get_profile_status client profile)))
    = false →
  confirmation_asked con
    (check_profile_status_with_verification client profile auto_approve old_status con).2.
Proof.
  intros Hno. unfold confirmation_asked, check_profile_status_with_verification, try_except.
  rewrite Hno. unfold mbind, io_bind, input, save_when, append_example, mret, io_ret.
  destruct con as [[|l1 [|l2 [|l3 ls]]] ps ex]; simpl;
    repeat (case_decide; simpl);
    rewrite <- ?(assoc_L (++)); simpl; eexists; reflexivity.
Qed.

Lemma not_asked_same con : ¬ confirmation_asked con con.
Proof.
  intros [more H]. apply (f_equal length) in H.
  rewrite length_app in H. simpl in H. lia.
Qed.

(** The verification never raises; it returns a null status only from
    its exception handler, which runs only when [input] finds no line
    left after the operator has been asked. *)
Lemma verification_returns auto_approve old_status con :
  ∃ c con',
    check_profile_status_with_verification client profile auto_approve old_status con
    = (Returned c, con')
    ∧ (status c = VNone →
       c = Classification VNone "low" ∧ stdin con' = [] ∧ confirmation_asked con con').
Proof.
  unfold confirmation_asked, check_profile_status_with_verification, try_except.
  destruct (auto_approve && _).
  { do 2 eexists. split; [reflexivity|]. simpl. discriminate. }
  unfold mbind, io_bind, input, save_when, append_example, mret, io_ret.
  destruct con as [[|l1 [|l2 [|l3 ls]]] ps ex]; simpl;
    repeat (case_decide; simpl);
    rewrite <- ?(assoc_L (++)); simpl;
    do 2 eexists; (split; [reflexivity|]); simpl; try discriminate;
    intros _; split_and!; try done; eexists; reflexivity.
Qed.

End Classifier.

Section ClassifierClaims.

(** C1. [check_profile_status_with_verification] skips the operator's
    confirmation and returns the candidate pair if and only if
    [auto_approve] is set and the candidate status equals [old_status];
    it then leaves the console untouched.  Whenever the candidate
    status differs from [old_status] the operator is asked, also with
    [auto_approve] set. *)
Theorem auto_approval_policy client profile auto_approve old_status con :
  let candidate := get_profile_status client profile in
  let run :=
    check_profile_status_with_verification client profile auto_approve old_status con in
  ((¬ confirmation_asked con run.2 ∧ run.1 = Returned (accepted candidate))
     ↔ (auto_approve = true ∧ old_status = VStr (cand_status candidate)))
  ∧ (auto_approve = true ∧ old_status = VStr (cand_status candidate) →
     run = (Returned (accepted candidate), con))
  ∧ (old_status ≠ VStr (cand_status candidate) → confirmation_asked con run.2).
Proof.
  intros candidate run.
  assert (auto_approve = true ∧ old_status = VStr (cand_status candidate) →
          run = (Returned (accepted candidate), con)) as Hskip.
  { intros [-> Heq]. by apply verification_skipped. }
  assert (¬ (auto_approve = true ∧ old_status = VStr (cand_status candidate)) →
          confirmation_asked con run.2) as Hask.
  { intros Hno. apply verification_asked. apply andb_false_iff.
    destruct auto_approve; [right|by left].
    apply bool_decide_eq_false. intros Heq. by apply Hno. }
  split_and!.
  - split.
    + intros [Hquiet _].
      destruct (decide (auto_approve = true ∧ old_status = VStr (cand_status candidate)))
        as [Hyes|Hno]; [done|].
      destruct Hquiet. by apply Hask.
    + intros Hyes. rewrite (Hskip Hyes). simpl. split; [apply not_asked_same|done].
  - done.
  - intros Hne. apply Hask. by intros [_ Heq].
Qed.

Lemma auto_approval_policy_witness :
  check_profile_status_with_verification (replying "stealth|high") fresh_ada true
    (VStr "stealth") (operator ["n"])
  = (Returned (Classification (VStr "stealth") "high"), operator ["n"])
  ∧ confirmation_asked (operator ["n"])
      (check_profile_status_with_verification (replying "recently_quit|high") fresh_ada true
         (VStr "stealth") (operator ["n"])).2.
Proof.
  split.
  - apply (auto_approval_policy (replying "stealth|high") fresh_ada true
             (VStr "stealth") (operator ["n"])).
    split; vm_compute; reflexivity.
  - apply (auto_approval_policy (replying "recently_quit|high") fresh_ada true
             (VStr "stealth") (operator ["n"])).
    vm_compute. discriminate.
Defined.

End ClassifierClaims.

Section RefreshClaims.

Variables (client : OpenAI) (now : string).

Lemma size_list_to_set_pos (l : list string) :
  l ≠ [] → (0 < size (list_to_set l : gset string))%nat.
Proof.
  destruct l as [|x l]; [done|]. intros _.
  assert (size (list_to_set (x :: l) : gset string) ≠ 0%nat) as Hsz; [|lia].
  apply size_non_empty_iff. intros Hempty.
  apply (not_elem_of_empty (C:=gset string) x). rewrite <- Hempty.
  apply elem_of_list_to_set. by left.
Qed.

Lemma auto_approve_flag_spec detected_changes :
  changed_fields detected_changes ≠ [] →
  auto_approve_flag detected_changes = true
  ↔ ∀ f, f ∈ changed_fields detected_changes → f ∈ non_critical_fields.
Proof.
  intros Hne. unfold auto_approve_flag.
  rewrite andb_true_iff, !bool_decide_eq_true.
  rewrite size_empty_iff.
  split.
  - intros [Hcrit _] f Hf.
    destruct (decide (f ∈ non_critical_fields)) as [|Hno]; [done|].
    exfalso. apply (not_elem_of_empty (C:=gset string) f). rewrite <- Hcrit.
    apply elem_of_difference. split; [by apply elem_of_list_to_set|].
    by rewrite elem_of_list_to_set.
  - intros Hall. split; [|by apply size_list_to_set_pos].
    apply elem_of_equiv_empty. intros f Hf.
    apply elem_of_difference in Hf as [Hin Hout].
    apply Hout. apply elem_of_list_to_set. apply Hall. by apply elem_of_list_to_set in Hin.
Qed.

Lemma refresh_console current_profile fresh_profile con :
  let detected_changes := compare_profile_changes current_profile fresh_profile in
  has_changes detected_changes = true →
  (refresh_single_profile client now current_profile fresh_profile con).2
  = (check_profile_status_with_verification client fresh_profile
       (auto_approve_flag detected_changes)
       (field_or_none current_profile "profile_status") con).2.
Proof.
  intros detected_changes Hchg. unfold refresh_single_profile. fold detected_changes.
  rewrite Hchg. unfold prepare_profile_updates, mbind, io_bind.
  destruct (check_profile_status_with_verification _ _ _ _ con) as [[c|] con']; [|done].
  by case_decide.
Qed.

(** C2. On the refresh path, when the detected change set has
    [has_changes] true, classification is run with an [auto_approve]
    flag that is true if and only if every field in [changed_fields]
    belongs to the allow-list [follower_count], [connection_count],
    [recent_experience_duration]; a changed field outside the list makes
    the flag false. *)
Theorem auto_approve_iff_non_critical current_profile fresh_profile con :
  has_changes (compare_profile_changes current_profile fresh_profile) = true →
  let detected_changes := compare_profile_changes current_profile fresh_profile in
  let auto_approve := auto_approve_flag detected_changes in
  (refresh_single_profile client now current_profile fresh_profile con).2
    = (check_profile_status_with_verification client fresh_profile auto_approve
         (field_or_none current_profile "profile_status") con).2
  ∧ (auto_approve = true
     ↔ ∀ f, f ∈ changed_fields detected_changes → f ∈ non_critical_fields)
  ∧ (∀ f, f ∈ changed_fields detected_changes → f ∉ non_critical_fields →
          auto_approve = false).
Proof.
  intros Hchg detected_changes auto_approve.
  assert (changed_fields detected_changes ≠ []) as Hne by by apply compare_flag_agrees.
  pose proof (auto_approve_flag_spec detected_changes Hne) as Hspec.
  split_and!.
  - by apply refresh_console.
  - done.
  - intros f Hf Hcrit. apply not_true_is_false. intros Hyes.
    apply Hcrit. by apply Hspec.
Qed.

End RefreshClaims.

Lemma auto_approve_iff_non_critical_witness :
  auto_approve_flag (compare_profile_changes stored_ada fresh_ada_later) = true.
Proof.
  assert (has_changes (compare_profile_changes stored_ada fresh_ada_later) = true) as H
    by (vm_compute; reflexivity).
  destruct (auto_approve_iff_non_critical unreachable "2025-01-01T00:00:00" stored_ada
              fresh_ada_later quiet H) as (_ & Hiff & _).
  apply Hiff. intros f Hf.
  assert (changed_fields (compare_profile_changes stored_ada fresh_ada_later)
          = ["recent_experience_duration"]) as E by (vm_compute; reflexivity).
  rewrite E in Hf. apply list_elem_of_singleton in Hf. subst f.
  by apply (bool_decide_unpack _).
Defined.

Section FailureClaims.


Lemma status_not_written new_profile now :
  ("profile_status" ∉ update_keys (Updates (fresh_fields new_profile) (metadata now)))
  ∧ ("status_confidence_label"
       ∉ update_keys (Updates (fresh_fields new_profile) (metadata now))).
Proof. split; apply (bool_decide_unpack _); vm_compute; exact I. Qed.

Lemma prepare_writes_status client now old_profile new_profile detected_changes con :
  let old_status := field_or_none old_profile "profile_status" in
  ∃ c con' u detected_changes',
    check_profile_status_with_verification client new_profile
      (auto_approve_flag detected_changes) old_status con = (Returned c, con')
    ∧ prepare_profile_updates client now old_profile new_profile detected_changes con
      = (Returned (u, detected_changes'), con')
    ∧ (status c ≠ old_status →
       fields (fields_to_update u) !! "profile_status" = Some (status c)
       ∧ fields (fields_to_update u) !! "status_confidence_label"
         = Some (VStr (confidence_label c)))
    ∧ (status c = old_status →
       ("profile_status" ∉ update_keys u) ∧ ("status_confidence_label" ∉ update_keys u)).
Proof.
  intros old_status.
  destruct (verification_returns client new_profile (auto_approve_flag detected_changes)
              old_status con) as (c & con' & Hrun & _).
  exists c, con'. unfold prepare_profile_updates, mbind, io_bind.
  fold old_status. rewrite Hrun.
  destruct (decide (status c ≠ old_status)) as [Hne|Heq].
  - do 2 eexists. split_and!; [done..| |done].
    intros _; simpl. split; [|by apply lookup_insert_eq].
    rewrite lookup_insert_ne by done. by apply lookup_insert_eq.
  - do 2 eexists. split_and!; [done..| |].
    + intros Hne. by destruct Heq.
    + intros _. apply status_not_written.
Qed.




End FailureClaims.

(* ===================================================================== *)
(** ** Labels *)
(* ===================================================================== *)

Section Labels.

Lemma append_cons a (s t : string) : String a s +:+ t = String a (s +:+ t).
Proof. reflexivity. Qed.


Lemma startswith_spec s t : Str.startswith s t = true ↔ ∃ post, t = s +:+ post.
Proof.
  revert t. induction s as [|a s IH]; intros t; simpl.
  - split; [intros _; by exists t|done].
  - destruct t as [|b t].
    + split; [done|]. intros [post H]. by rewrite append_cons in H.
    + setoid_rewrite append_cons. case_decide as Hab.
      * subst b. rewrite IH. split; intros [post H]; exists post; congruence.
      * split; [done|]. intros [post H]. congruence.
Qed.

Lemma contains_spec kw s : Str.contains kw s = true ↔ occurs_in kw s.
Proof.
  unfold occurs_in. induction s as [|c s IH]; simpl.
  - rewrite orb_false_r, startswith_spec. split.
    + intros [post H]. by exists "", post.
    + intros (pre & post & H). destruct pre; [by exists post|].
      by rewrite append_cons in H.
  - rewrite orb_true_iff, startswith_spec, IH. split.
    + intros [[post H]|(pre & post & H)].
      * by exists "", post.
      * exists (String c pre), post. by rewrite append_cons, H.
    + intros (pre & post & H). destruct pre as [|a pre].
      * left. by exists post.
      * right. exists pre, post. rewrite append_cons in H. congruence.
Qed.

Lemma is_founder_role_spec e : is_founder_role e = true ↔ founder_titled e.
Proof.
  unfold is_founder_role, founder_titled. rewrite existsb_exists.
  split; intros (kw & Hin & Hkw); exists kw.
  - by rewrite list_elem_of_In, <- contains_spec.
  - by rewrite <- list_elem_of_In, contains_spec.
Qed.

Lemma counts_filter {A} (P : A → Prop) (b : A → bool) l :
  (∀ x, b x = true ↔ P x) → counts P l (length (List.filter b l)).
Proof.
  intros Hb. induction l as [|x l IH]; simpl; [constructor|].
  destruct (b x) eqn:E; simpl.
  - apply counts_yes; [by apply Hb|done].
  - apply counts_no; [|done]. rewrite <- Hb. congruence.
Qed.

Lemma counts_unique {A} (P : A → Prop) l n m : counts P l n → counts P l m → n = m.
Proof.
  intros Hn. revert m. induction Hn; intros m Hm; inversion Hm; subst; auto; done.
Qed.

Lemma check_repeat_founder_filter p :
  check_repeat_founder p
  = bool_decide (1 < length (List.filter is_founder_role (default [] (experience p))))%nat.
Proof.
  unfold check_repeat_founder. destruct (default [] (experience p)); [|done].
  symmetry. apply bool_decide_eq_false. simpl. lia.
Qed.

(** C7. [check_repeat_founder] returns true if and only if the number of
    experience entries whose title contains, letter case aside, one of
    the keywords founder, co-founder, co founder, chief executive
    officer, ceo is greater than 1; that number always exists. *)
Theorem repeat_founder_rule p :
  (∃ n, counts founder_titled (default [] (experience p)) n)
  ∧ (∀ n, counts founder_titled (default [] (experience p)) n →
          check_repeat_founder p = true ↔ (1 < n)%nat).
Proof.
  pose proof (counts_filter founder_titled is_founder_role (default [] (experience p))
                is_founder_role_spec) as Hcount.
  split; [by eexists|].
  intros n Hn. rewrite (counts_unique _ _ _ _ Hn Hcount).
  by rewrite check_repeat_founder_filter, bool_decide_eq_true.
Qed.

Lemma founder_titled_role kw title company duration date_range :
  kw ∈ founder_keywords → Str.contains kw (Str.lower title) = true →
  founder_titled (role title company duration date_range).
Proof. intros Hin Hkw. exists kw. split; [done|]. by apply contains_spec. Qed.

(** The two cases singled out: one founder title gives false, the
    titles Founder and Co-Founder give true. *)
Lemma repeat_founder_rule_witness :
  check_repeat_founder one_founder = false ∧ check_repeat_founder two_founders = true.
Proof.
  split.
  - apply not_true_is_false. intros H.
    apply (proj2 (repeat_founder_rule one_founder) 1%nat) in H; [lia|].
    apply counts_yes.
    + apply (founder_titled_role "founder"); [by apply (bool_decide_unpack _)|reflexivity].
    + apply counts_no; [|constructor].
      intros H'. apply is_founder_role_spec in H'. vm_compute in H'. discriminate.
  - apply (proj2 (repeat_founder_rule two_founders) 2%nat); [|lia].
    apply counts_yes.
    + apply (founder_titled_role "founder"); [by apply (bool_decide_unpack _)|reflexivity].
    + apply counts_yes; [|constructor].
      apply (founder_titled_role "co-founder"); [by apply (bool_decide_unpack _)|reflexivity].
Defined.




End Labels.

(* ===================================================================== *)
(** ** The duration parser *)
(* ===================================================================== *)

Section Durations.

Implicit Types (s t rest : string) (c : ascii).

Lemma length_append s t : String.length (s +:+ t) = (String.length s + String.length t)%nat.
Proof. induction s as [|c s IH]; [done|]. rewrite append_cons. simpl. by rewrite IH. Qed.

Lemma append_assoc s t rest : (s +:+ t) +:+ rest = s +:+ t +:+ rest.
Proof. induction s as [|c s IH]; [done|]. by rewrite !append_cons, IH. Qed.


(** *** The sub-patterns prefer the longest run *)






(** *** Letters that lower to a unit letter are neither digits nor spaces *)




(** *** The unit alternatives: [yr] wins over [yrs] and [mo] over [mos] *)


(** *** A token at the start of the text is what the pattern matches *)


(** *** A match consumes at least one character *)






(** *** The scan does not depend on the fuel, once there is enough *)






(** *** What a match looks like, for any text *)









(** *** Summing the matches *)







End Durations.

Section DurationClaims.





End DurationClaims.

(* ===================================================================== *)
(** ** More on the change detector *)
(* ===================================================================== *)

Section DetectorShape.

Implicit Types (cs : change_set) (f : string) (p : profile)
               (c : string * (recorded * recorded)).

Lemma fold_simple_comparisons old_profile new_profile fs cs :
  fold_left (compare_simple old_profile new_profile) fs cs
  = fold_left record_comparison
      (List.filter differs
         ((λ f, (f, (RVal (field old_profile f), RVal (field new_profile f)))) <$> fs)) cs.
Proof.
  revert cs. induction fs as [|f fs IH]; intros cs; [done|].
  simpl. unfold compare_simple at 2, differs at 1. simpl.
  destruct (decide (field old_profile f = field new_profile f)) as [E|E].
  - rewrite decide_False by (intros H; by apply H).
    rewrite bool_decide_eq_false_2 by (intros H; apply H; by rewrite E). apply IH.
  - rewrite decide_True by done.
    rewrite bool_decide_eq_true_2 by congruence. simpl. apply IH.
Qed.

Lemma fold_recent_comparisons (o n : entry) fs cs :
  fold_left (compare_recent o n) fs cs
  = fold_left record_comparison
      (List.filter differs
         ((λ f, ("recent_experience_" +:+ f,
                 (RVal (VStr (get o f "")), RVal (VStr (get n f ""))))) <$> fs)) cs.
Proof.
  revert cs. induction fs as [|f fs IH]; intros cs; [done|].
  simpl. unfold compare_recent at 2, differs at 1. simpl.
  destruct (decide (get o f "" = get n f "")) as [E|E].
  - rewrite decide_False by (intros H; by apply H).
    rewrite bool_decide_eq_false_2 by (intros H; apply H; by rewrite E). apply IH.
  - rewrite decide_True by done.
    rewrite bool_decide_eq_true_2 by congruence. simpl. apply IH.
Qed.

Lemma elements_inj (X Y : gset string) : elements X = elements Y → X = Y.
Proof.
  intros H. apply set_eq. intros x. by rewrite <- !elem_of_elements, H.
Qed.

Lemma single_comparison cs f (o n : recorded) (P : Prop) `{!Decision P} :
  (P ↔ o ≠ n) →
  (if decide P then note f o n cs else cs)
  = fold_left record_comparison (List.filter differs [(f, (o, n))]) cs.
Proof.
  intros HP. simpl. unfold differs. simpl. case_decide as H.
  - by rewrite bool_decide_eq_true_2 by by apply HP.
  - by rewrite bool_decide_eq_false_2 by (intros H'; by apply H, HP).
Qed.

(** The detector records, in order, exactly the comparisons that
    differ. *)
Lemma compare_as_comparisons old_profile new_profile :
  compare_profile_changes old_profile new_profile
  = fold_left record_comparison
      (List.filter differs (comparisons old_profile new_profile)) no_changes.
Proof.
  unfold compare_profile_changes, comparisons.
  rewrite !List.filter_app, !fold_left_app.
  rewrite <- fold_simple_comparisons.
  set (c1 := fold_left (compare_simple _ _) _ _).
  set (old_exp := default [] (experience old_profile)).
  set (new_exp := default [] (experience new_profile)).
  rewrite <- (single_comparison c1 "experience_count" _ _ (length old_exp ≠ length new_exp));
    last first.
  { unfold len. split; [intros H [= E]; apply H; lia|intros H E; apply H; by rewrite E]. }
  set (c2 := if decide (length old_exp ≠ length new_exp) then _ else _).
  assert (match old_exp with
          | [] => c2
          | old_first :: _ =>
              match new_exp with
              | [] => c2
              | new_first :: _ => fold_left (compare_recent old_first new_first) exp_fields c2
              end
          end
          = fold_left record_comparison
              (List.filter differs
                 match old_exp with
                 | [] => []
                 | old_first :: _ =>
                     match new_exp with
                     | [] => []
                     | new_first :: _ =>
                         (λ f, ("recent_experience_" +:+ f,
                                (RVal (VStr (get old_first f "")),
                                 RVal (VStr (get new_first f ""))))) <$> exp_fields
                     end
                 end) c2) as ->.
  { destruct old_exp as [|o os], new_exp as [|n ns]; try done.
    apply fold_recent_comparisons. }
  set (c3 := fold_left record_comparison _ c2).
  change [("education_count", ?a); ?b] with ([("education_count", a)] ++ [b])%list.
  rewrite List.filter_app, fold_left_app.
  rewrite <- (single_comparison c3 "education_count" _ _
                (length (default [] (education old_profile))
                 ≠ length (default [] (education new_profile)))); last first.
  { unfold len. split; [intros H [= E]; apply H; lia|intros H E; apply H; by rewrite E]. }
  apply single_comparison.
  split; [intros H [= E]; by apply H, elements_inj|intros H E; apply H; by rewrite E].
Qed.

End DetectorShape.

Section DetectorContents.

Implicit Types (cs : change_set) (f : string) (p : profile)
               (c : string * (recorded * recorded))
               (l : list (string * (recorded * recorded))).

Lemma fold_record_fields l cs :
  changed_fields (fold_left record_comparison l cs) = (changed_fields cs ++ l.*1)%list.
Proof.
  revert cs. induction l as [|c l IH]; intros cs; simpl.
  - by rewrite app_nil_r.
  - rewrite IH. simpl. by rewrite <- app_assoc.
Qed.

Lemma fold_record_other l cs f :
  f ∉ l.*1 → changes (fold_left record_comparison l cs) !! f = changes cs !! f.
Proof.
  revert cs. induction l as [|c l IH]; intros cs Hf; [done|].
  simpl in *. apply not_elem_of_cons in Hf as [Hne Hf].
  rewrite IH by done. simpl. by rewrite lookup_insert_ne.
Qed.

Lemma fold_record_lookup l cs f o n :
  NoDup l.*1 → (f, (o, n)) ∈ l →
  changes (fold_left record_comparison l cs) !! f = Some (Change o n None).
Proof.
  revert cs. induction l as [|c l IH]; intros cs Hnd Hin; [by apply elem_of_nil in Hin|].
  simpl in Hnd. apply NoDup_cons in Hnd as [Hc Hnd].
  apply elem_of_cons in Hin as [<-|Hin]; simpl.
  - rewrite fold_record_other by done. simpl. by rewrite lookup_insert_eq.
  - by apply IH.
Qed.

Lemma filter_sublist {A} (b : A → bool) (xs : list A) : sublist (List.filter b xs) xs.
Proof.
  induction xs as [|x xs IH]; simpl; [constructor|].
  destruct (b x); by constructor.
Qed.

Lemma elem_of_filter {A} (b : A → bool) (xs : list A) x :
  x ∈ List.filter b xs ↔ x ∈ xs ∧ b x = true.
Proof. rewrite !list_elem_of_In. apply filter_In. Qed.

Lemma distinct_names_unique l f (v w : recorded * recorded) :
  NoDup l.*1 → (f, v) ∈ l → (f, w) ∈ l → v = w.
Proof.
  induction l as [|c l IH]; intros Hnd Hv Hw; [by apply elem_of_nil in Hv|].
  simpl in Hnd. apply NoDup_cons in Hnd as [Hc Hnd].
  apply elem_of_cons in Hv as [Hv|Hv], Hw as [Hw|Hw].
  - congruence.
  - subst c. destruct Hc. apply list_elem_of_fmap. by exists (f, w).
  - subst c. destruct Hc. apply list_elem_of_fmap. by exists (f, v).
  - by apply IH.
Qed.

(** With distinct names, a name survives the filter exactly when its
    own comparison differs. *)
Lemma filtered_name l f o n :
  NoDup l.*1 → (f, (o, n)) ∈ l →
  f ∈ (List.filter differs l).*1 ↔ o ≠ n.
Proof.
  intros Hnd Hin. rewrite list_elem_of_fmap. split.
  - intros ([g [o' n']] & Hg & Hc). simpl in Hg. subst g.
    apply elem_of_filter in Hc as [Hc Hd].
    assert ((o', n') = (o, n)) as [= -> ->].
    { by eapply distinct_names_unique. }
    unfold differs in Hd. simpl in Hd. by apply bool_decide_eq_true in Hd.
  - intros Hne. exists (f, (o, n)). split; [done|].
    apply elem_of_filter. split; [done|]. unfold differs. simpl.
    by apply bool_decide_eq_true.
Qed.

Lemma comparisons_names old_profile new_profile :
  (comparisons old_profile new_profile).*1
  = if decide (both_nonempty old_profile new_profile) then field_order
    else coarse_fields.
Proof.
  unfold comparisons, both_nonempty.
  destruct (default [] (experience old_profile)) as [|o os],
           (default [] (experience new_profile)) as [|n ns];
    case_decide as H; try reflexivity; exfalso; try (by destruct H); by apply H.
Qed.

End DetectorContents.

Section DetectorProperties.

Implicit Types (cs : change_set) (f : string) (p : profile)
               (c : string * (recorded * recorded)).

Lemma field_order_NoDup : NoDup field_order.
Proof. by apply (bool_decide_unpack _). Qed.

Lemma coarse_sublist_order : sublist coarse_fields field_order.
Proof.
  unfold coarse_fields, field_order. apply sublist_app; [done|].
  repeat first [apply sublist_skip|apply sublist_cons|apply sublist_nil].
Qed.

Lemma comparisons_sublist old_profile new_profile :
  sublist (comparisons old_profile new_profile).*1 field_order.
Proof.
  rewrite comparisons_names. case_decide; [done|apply coarse_sublist_order].
Qed.

Lemma comparisons_NoDup old_profile new_profile :
  NoDup (comparisons old_profile new_profile).*1.
Proof. eapply sublist_NoDup; [apply field_order_NoDup|apply comparisons_sublist]. Qed.

Lemma recorded_NoDup old_profile new_profile :
  NoDup (List.filter differs (comparisons old_profile new_profile)).*1.
Proof.
  eapply sublist_NoDup; [apply comparisons_NoDup|].
  apply fmap_sublist, filter_sublist.
Qed.

Lemma compare_changed_fields old_profile new_profile :
  changed_fields (compare_profile_changes old_profile new_profile)
  = (List.filter differs (comparisons old_profile new_profile)).*1.
Proof. by rewrite compare_as_comparisons, fold_record_fields. Qed.

(** A comparison that is made is listed exactly when its two values
    differ, and is then stored with them. *)
Lemma comparison_listed old_profile new_profile f o n :
  (f, (o, n)) ∈ comparisons old_profile new_profile →
  (f ∈ changed_fields (compare_profile_changes old_profile new_profile) ↔ o ≠ n)
  ∧ changes (compare_profile_changes old_profile new_profile) !! f
    = if decide (o ≠ n) then Some (Change o n None) else None.
Proof.
  intros Hin. rewrite compare_changed_fields.
  pose proof (filtered_name _ f o n (comparisons_NoDup old_profile new_profile) Hin) as Hiff.
  split; [done|]. rewrite compare_as_comparisons. case_decide as Hne.
  - apply fold_record_lookup; [apply recorded_NoDup|].
    apply elem_of_filter. split; [done|]. unfold differs. simpl.
    by apply bool_decide_eq_true.
  - rewrite fold_record_other; [apply lookup_empty|].
    intros H. by apply Hiff in H.
Qed.

(** A field for which no comparison is made is never listed. *)
Lemma uncompared_unlisted old_profile new_profile f :
  f ∉ (comparisons old_profile new_profile).*1 →
  (f ∉ changed_fields (compare_profile_changes old_profile new_profile))
  ∧ changes (compare_profile_changes old_profile new_profile) !! f = None.
Proof.
  intros Hf.
  assert (f ∉ (List.filter differs (comparisons old_profile new_profile)).*1) as Hf'.
  { intros H. apply Hf. eapply elem_of_sublist; [done|].
    apply fmap_sublist, filter_sublist. }
  split; [by rewrite compare_changed_fields|].
  rewrite compare_as_comparisons. rewrite fold_record_other by done. apply lookup_empty.
Qed.

(** X1. Whatever the two profiles, [changed_fields] lists no field
    twice, lists the fields in the fixed order in which they are
    compared, and the keys of [changes] are exactly the listed fields. *)
Theorem changed_fields_are_the_keys old_profile new_profile :
  let cs := compare_profile_changes old_profile new_profile in
  NoDup (changed_fields cs)
  ∧ sublist (changed_fields cs) field_order
  ∧ dom (changes cs) = list_to_set (changed_fields cs).
Proof.
  intros cs. subst cs. split_and!.
  - rewrite compare_changed_fields. apply recorded_NoDup.
  - rewrite compare_changed_fields.
    etransitivity; [apply fmap_sublist, filter_sublist|apply comparisons_sublist].
  - apply set_eq. intros f. rewrite elem_of_dom, elem_of_list_to_set.
    rewrite compare_changed_fields, compare_as_comparisons. split.
    + intros Hsome.
      destruct (decide (f ∈ (List.filter differs
                               (comparisons old_profile new_profile)).*1)) as [|Hno];
        [done|].
      rewrite fold_record_other in Hsome by done. simpl in Hsome.
      rewrite lookup_empty in Hsome. by destruct Hsome.
    + intros Hin. apply list_elem_of_fmap in Hin as ([g [o n]] & -> & Hc). simpl.
      erewrite fold_record_lookup; [done|apply recorded_NoDup|done].
Qed.

(** X2. A simple field (names, headline, job title, location, follower
    and connection counts) is listed if and only if its values in the
    two profiles differ, a missing key counting as the empty text; the
    stored pair is then exactly the old and the new value. *)
Theorem simple_field_listed old_profile new_profile f :
  f ∈ simple_fields →
  let cs := compare_profile_changes old_profile new_profile in
  (f ∈ changed_fields cs ↔ field old_profile f ≠ field new_profile f)
  ∧ (field old_profile f ≠ field new_profile f →
     changes cs !! f
     = Some (Change (RVal (field old_profile f)) (RVal (field new_profile f)) None))
  ∧ (field old_profile f = field new_profile f → changes cs !! f = None).
Proof.
  intros Hf cs. subst cs.
  destruct (comparison_listed old_profile new_profile f
              (RVal (field old_profile f)) (RVal (field new_profile f))) as [Hiff Hlook].
  { unfold comparisons. apply elem_of_app. left.
    apply list_elem_of_fmap. by exists f. }
  split_and!.
  - rewrite Hiff. split; [intros H E; apply H; by rewrite E|congruence].
  - intros Hne. rewrite Hlook. by rewrite decide_True by congruence.
  - intros Heq. rewrite Hlook. rewrite decide_False; [done|]. intros H. apply H. by rewrite Heq.
Qed.

Lemma simple_field_listed_witness :
  "headline" ∉ changed_fields (compare_profile_changes stored_ada fresh_ada_later).
Proof.
  assert ("headline" ∈ simple_fields) as Hf by by apply (bool_decide_unpack _).
  destruct (simple_field_listed stored_ada fresh_ada_later "headline" Hf) as (Hiff & _).
  rewrite Hiff. intros H. apply H. vm_compute. reflexivity.
Defined.

End DetectorProperties.

Section DetectorFields.

Implicit Types (cs : change_set) (f : string) (p : profile).

(** [experience_count] is listed if and only if the two experience
    lists differ in length, and [education_count] if and only if the two
    education lists do; the stored pair holds the two lengths.  A
    missing list counts as empty. *)
Lemma counts_listed old_profile new_profile :
  let cs := compare_profile_changes old_profile new_profile in
  let old_exp := default [] (experience old_profile) in
  let new_exp := default [] (experience new_profile) in
  let old_edu := default [] (education old_profile) in
  let new_edu := default [] (education new_profile) in
  ("experience_count" ∈ changed_fields cs ↔ length old_exp ≠ length new_exp)
  ∧ ("education_count" ∈ changed_fields cs ↔ length old_edu ≠ length new_edu)
  ∧ changes cs !! "experience_count"
    = (if decide (length old_exp ≠ length new_exp)
       then Some (Change (RVal (len old_exp)) (RVal (len new_exp)) None) else None)
  ∧ changes cs !! "education_count"
    = (if decide (length old_edu ≠ length new_edu)
       then Some (Change (RVal (len old_edu)) (RVal (len new_edu)) None) else None).
Proof.
  intros cs old_exp new_exp old_edu new_edu. subst cs.
  assert (∀ {A} (a b : list A), RVal (len a) ≠ RVal (len b) ↔ length a ≠ length b) as Hlen.
  { intros A a b. unfold len.
    split; [intros H E; apply H; by rewrite E|intros H [= E]; apply H; lia]. }
  destruct (comparison_listed old_profile new_profile "experience_count"
              (RVal (len old_exp)) (RVal (len new_exp))) as [Hexp Hexp'].
  { unfold comparisons. apply elem_of_app. right. apply elem_of_app. left. constructor. }
  destruct (comparison_listed old_profile new_profile "education_count"
              (RVal (len old_edu)) (RVal (len new_edu))) as [Hedu Hedu'].
  { unfold comparisons. do 3 (apply elem_of_app; right). constructor. }
  rewrite Hlen in Hexp, Hedu. split_and!; [done|done| |].
  - rewrite Hexp'. destruct (decide (length old_exp ≠ length new_exp)) as [H|H].
    + by rewrite decide_True by by apply Hlen.
    + by rewrite decide_False by (intros H'; by apply H, Hlen).
  - rewrite Hedu'. destruct (decide (length old_edu ≠ length new_edu)) as [H|H].
    + by rewrite decide_True by by apply Hlen.
    + by rewrite decide_False by (intros H'; by apply H, Hlen).
Qed.

Lemma recent_name_not_coarse f : f ∈ exp_fields → "recent_experience_" +:+ f ∉ coarse_fields.
Proof.
  unfold exp_fields. rewrite !elem_of_cons, elem_of_nil.
  intros [->|[->|[->|[->|[]]]]]; by apply (bool_decide_unpack _).
Qed.

(** X3. For each of company, title, duration and date range, the field
    [recent_experience_<name>] is listed if and only if both experience
    lists are non-empty and their first entries differ on that key, a
    missing key counting as the empty text; the stored pair holds the
    two texts. *)
Theorem recent_field_listed old_profile new_profile f :
  f ∈ exp_fields →
  let cs := compare_profile_changes old_profile new_profile in
  ("recent_experience_" +:+ f ∈ changed_fields cs
   ↔ ∃ old_first old_rest new_first new_rest,
       default [] (experience old_profile) = old_first :: old_rest
       ∧ default [] (experience new_profile) = new_first :: new_rest
       ∧ get old_first f "" ≠ get new_first f "")
  ∧ (∀ c, changes cs !! ("recent_experience_" +:+ f) = Some c →
          ∃ old_first old_rest new_first new_rest,
            default [] (experience old_profile) = old_first :: old_rest
            ∧ default [] (experience new_profile) = new_first :: new_rest
            ∧ c = Change (RVal (VStr (get old_first f "")))
                         (RVal (VStr (get new_first f ""))) None).
Proof.
  intros Hf cs. subst cs.
  destruct (default [] (experience old_profile)) as [|o os] eqn:Eo;
    [|destruct (default [] (experience new_profile)) as [|n ns] eqn:En].
  1,2: destruct (uncompared_unlisted old_profile new_profile ("recent_experience_" +:+ f))
         as [Hno Hnone];
       [rewrite comparisons_names, decide_False;
          [by apply recent_name_not_coarse|unfold both_nonempty; rewrite Eo, ?En; by intros []]
       |split; [split; [done|by intros (? & ? & ? & ? & ? & ? & ?)]
               |intros c Hc; by rewrite Hnone in Hc]].
  destruct (comparison_listed old_profile new_profile ("recent_experience_" +:+ f)
              (RVal (VStr (get o f ""))) (RVal (VStr (get n f "")))) as [Hiff Hlook].
  { unfold comparisons. rewrite Eo, En. do 2 (apply elem_of_app; right).
    apply elem_of_app. left. apply list_elem_of_fmap. by exists f. }
  split.
  - rewrite Hiff. split.
    + intros Hne. exists o, os, n, ns. split_and!; [done..|]. congruence.
    + intros (? & ? & ? & ? & [= <- <-] & [= <- <-] & Hne). congruence.
  - intros c Hc. rewrite Hlook in Hc. case_decide; [|done].
    injection Hc as <-. by exists o, os, n, ns.
Qed.

Lemma recent_field_listed_witness :
  "recent_experience_duration"
    ∈ changed_fields (compare_profile_changes stored_ada fresh_ada_later).
Proof.
  assert ("duration" ∈ exp_fields) as Hf by by apply (bool_decide_unpack _).
  apply (proj1 (recent_field_listed stored_ada fresh_ada_later "duration" Hf)).
  do 4 eexists. split_and!; [reflexivity..|]. vm_compute. discriminate.
Defined.

(** The names [company_names] produces: the non-empty [company] values
    of the entries. *)
Lemma elem_of_company_names exps x :
  x ∈ company_names exps ↔ x ≠ "" ∧ ∃ e, e ∈ exps ∧ e !! "company" = Some x.
Proof.
  unfold company_names. rewrite list_elem_of_fmap. split.
  - intros (e & -> & He). apply elem_of_filter in He as [He Ht].
    unfold truthy, get in *. destruct (e !! "company") as [s|] eqn:E; [|done].
    simpl. split; [|by exists e].
    intros ->. by rewrite bool_decide_eq_true_2 in Ht.
  - intros (Hx & e & He & Hc). exists e. split.
    + unfold get. by rewrite Hc.
    + apply elem_of_filter. split; [done|]. unfold truthy. rewrite Hc.
      by rewrite bool_decide_eq_false_2.
Qed.

(** X4. [previous_companies] is listed if and only if the names stored
    in the old profile and the non-empty company names of the new
    profile's experience entries are not the same set: order and
    repetitions make no difference, and the new profile's own
    [previous_companies] is never read. *)
Theorem previous_companies_listed old_profile new_profile :
  let cs := compare_profile_changes old_profile new_profile in
  let stored := default [] (previous_companies old_profile) in
  let fresh := default [] (experience new_profile) in
  ("previous_companies" ∉ changed_fields cs
   ↔ ∀ x, x ∈ stored ↔ x ≠ "" ∧ ∃ e, e ∈ fresh ∧ e !! "company" = Some x)
  ∧ (∀ other, compare_profile_changes old_profile
                (Profile (fields new_profile) (experience new_profile)
                         (education new_profile) other) = cs).
Proof.
  intros cs stored fresh. subst cs. split; [|done].
  destruct (comparison_listed old_profile new_profile "previous_companies"
              (RList (elements (list_to_set stored : gset string)))
              (RList (elements (list_to_set (company_names fresh) : gset string))))
    as [Hiff _].
  { unfold comparisons. do 3 (apply elem_of_app; right). right. constructor. }
  rewrite Hiff. split.
  - intros Hsame x. rewrite <- elem_of_company_names.
    destruct (decide (list_to_set stored = (list_to_set (company_names fresh) : gset string)))
      as [E|E].
    + by rewrite <- !(elem_of_list_to_set (C:=gset string)), E.
    + destruct Hsame. intros [= H]. by apply E, elements_inj.
  - intros Hsame Hne. apply Hne. do 2 f_equal. apply set_eq. intros x.
    rewrite !elem_of_list_to_set, elem_of_company_names. apply Hsame.
Qed.

(** X5. A stored pair never holds two equal values: every key of
    [changes] is a listed field whose old and new value differ, and no
    pair produced by the detector carries a confidence. *)
Theorem recorded_pairs_differ old_profile new_profile f c :
  changes (compare_profile_changes old_profile new_profile) !! f = Some c →
  old c ≠ new c ∧ confidence c = None
  ∧ f ∈ changed_fields (compare_profile_changes old_profile new_profile).
Proof.
  intros Hc.
  destruct (decide (f ∈ (comparisons old_profile new_profile).*1)) as [Hin|Hno].
  - apply list_elem_of_fmap in Hin as ([g [o n]] & -> & Hin). simpl in *.
    destruct (comparison_listed old_profile new_profile g o n Hin) as [Hiff Hlook].
    rewrite Hlook in Hc. case_decide; [|done]. injection Hc as <-. simpl.
    split_and!; [done..|]. by apply Hiff.
  - destruct (uncompared_unlisted old_profile new_profile f Hno) as [_ Hnone].
    by rewrite Hnone in Hc.
Qed.

Lemma recorded_pairs_differ_witness :
  RVal (VStr "1 yr") ≠ RVal (VStr "1 yr 1 mo").
Proof.
  apply (recorded_pairs_differ stored_ada fresh_ada_later "recent_experience_duration"
           (Change (RVal (VStr "1 yr")) (RVal (VStr "1 yr 1 mo")) None)).
  vm_compute. reflexivity.
Defined.

Lemma comparisons_ext old_profile new_profile new_profile' :
  (∀ f, f ∈ simple_fields → field new_profile f = field new_profile' f) →
  length (default [] (experience new_profile))
    = length (default [] (experience new_profile')) →
  head (default [] (experience new_profile)) = head (default [] (experience new_profile')) →
  (list_to_set (company_names (default [] (experience new_profile))) : gset string)
    = list_to_set (company_names (default [] (experience new_profile'))) →
  length (default [] (education new_profile))
    = length (default [] (education new_profile')) →
  comparisons old_profile new_profile = comparisons old_profile new_profile'.
Proof.
  intros Hfields Hlen Hhead Hnames Hedu. unfold comparisons, len.
  rewrite Hlen, Hnames, Hedu. f_equal; [|f_equal].
  - apply list_fmap_ext. intros i f Hf. apply list_elem_of_lookup_2 in Hf.
    by rewrite Hfields.
  - destruct (default [] (experience new_profile)) as [|n ns],
             (default [] (experience new_profile')) as [|n' ns']; try done.
    by injection Hhead as ->.
Qed.

(** X6. Only the first experience entry is compared field by field:
    the result is the same for two new profiles that agree on the simple
    fields, on the number of experience entries, on the first entry, on
    the set of company names, and on the number of education entries.
    Titles, durations and dates of later entries, and the contents of
    education entries, never show. *)
Theorem later_entries_ignored old_profile new_profile new_profile' :
  (∀ f, f ∈ simple_fields → field new_profile f = field new_profile' f) →
  length (default [] (experience new_profile))
    = length (default [] (experience new_profile')) →
  head (default [] (experience new_profile)) = head (default [] (experience new_profile')) →
  (∀ x, x ∈ company_names (default [] (experience new_profile))
        ↔ x ∈ company_names (default [] (experience new_profile'))) →
  length (default [] (education new_profile))
    = length (default [] (education new_profile')) →
  compare_profile_changes old_profile new_profile
  = compare_profile_changes old_profile new_profile'.
Proof.
  intros Hfields Hlen Hhead Hnames Hedu.
  rewrite !compare_as_comparisons.
  rewrite (comparisons_ext old_profile new_profile new_profile'); try done.
  apply set_eq. intros x. by rewrite !elem_of_list_to_set.
Qed.

End DetectorFields.

Lemma later_entries_ignored_witness :
  compare_profile_changes (two_roles "Analyst") (two_roles "Analyst")
  = compare_profile_changes (two_roles "Analyst") (two_roles "Director").
Proof.
  apply later_entries_ignored; reflexivity.
Defined.

Section NoChange.

Implicit Types (cs : change_set) (f : string) (p : profile).

Lemma filter_differs_nil (l : list (string * (recorded * recorded))) :
  List.filter differs l = [] ↔ Forall (λ c, c.2.1 = c.2.2) l.
Proof.
  induction l as [|c l IH]; simpl; [by split|].
  unfold differs at 1. rewrite Forall_cons, <- IH.
  destruct (decide (c.2.1 = c.2.2)) as [E|E].
  - rewrite bool_decide_eq_false_2 by (intros H; by apply H).
    split; [intros H; by split|by intros [_ H]].
  - rewrite bool_decide_eq_true_2 by done.
    split; [done|by intros []].
Qed.

Lemma no_changes_comparisons old_profile new_profile :
  has_changes (compare_profile_changes old_profile new_profile) = false
  ↔ Forall (λ c, c.2.1 = c.2.2) (comparisons old_profile new_profile).
Proof.
  rewrite <- filter_differs_nil.
  pose proof (compare_flag_agrees old_profile new_profile) as Hflag.
  unfold flag_agrees in Hflag. rewrite compare_changed_fields in Hflag.
  destruct (has_changes _).
  - split; [done|]. intros E. rewrite E in Hflag. by destruct (proj1 Hflag).
  - split; [|done]. intros _.
    destruct (List.filter differs _) as [|c l] eqn:E; [done|].
    assert (false = true) as Habs; [|done]. by apply Hflag.
Qed.

Lemma no_changes_is_empty old_profile new_profile :
  has_changes (compare_profile_changes old_profile new_profile) = false →
  compare_profile_changes old_profile new_profile = no_changes.
Proof.
  intros H. apply no_changes_comparisons, filter_differs_nil in H.
  by rewrite compare_as_comparisons, H.
Qed.

(** X7. The detector reports no change exactly when the two profiles
    agree on the simple fields, on the number of experience and of
    education entries, on company, title, duration and date range of the
    first experience entry, and when the stored company names are the
    company names of the new experience entries; the change set is then
    empty. *)
Theorem no_change_iff old_profile new_profile :
  let old_exp := default [] (experience old_profile) in
  let new_exp := default [] (experience new_profile) in
  (has_changes (compare_profile_changes old_profile new_profile) = false
   ↔ (∀ f, f ∈ simple_fields → field old_profile f = field new_profile f)
     ∧ length old_exp = length new_exp
     ∧ (∀ old_first new_first f,
          head old_exp = Some old_first → head new_exp = Some new_first →
          f ∈ exp_fields → get old_first f "" = get new_first f "")
     ∧ length (default [] (education old_profile))
       = length (default [] (education new_profile))
     ∧ (list_to_set (default [] (previous_companies old_profile)) : gset string)
       = list_to_set (company_names new_exp))
  ∧ (has_changes (compare_profile_changes old_profile new_profile) = false →
     compare_profile_changes old_profile new_profile = no_changes).
Proof.
  intros old_exp new_exp. split; [|apply no_changes_is_empty].
  rewrite no_changes_comparisons. unfold comparisons. fold old_exp new_exp.
  rewrite !Forall_app, !Forall_cons, Forall_nil, Forall_fmap. simpl.
  rewrite Forall_forall. unfold len.
  assert (Forall (λ c : string * (recorded * recorded), c.2.1 = c.2.2)
            match old_exp with
            | [] => []
            | old_first :: _ =>
                match new_exp with
                | [] => []
                | new_first :: _ =>
                    (λ f, ("recent_experience_" +:+ f,
                           (RVal (VStr (get old_first f "")),
                            RVal (VStr (get new_first f ""))))) <$> exp_fields
                end
            end
          ↔ ∀ old_first new_first f,
              head old_exp = Some old_first → head new_exp = Some new_first →
              f ∈ exp_fields → get old_first f "" = get new_first f "") as ->.
  { destruct old_exp as [|o os], new_exp as [|n ns].
    1-3: split; [intros _ ? ? ? Ho Hn; simpl in Ho, Hn; congruence|intros _; constructor].
    rewrite Forall_fmap, Forall_forall. split.
    - intros H ? ? f Ho Hn Hf. simpl in Ho, Hn. injection Ho as <-. injection Hn as <-.
      specialize (H f Hf). simpl in H. congruence.
    - intros H f Hf. simpl. by rewrite (H o n f). }
  split.
  - intros (Hs & [Hl _] & Hr & He & Hp & _). split_and!; try done.
    + intros f Hf. specialize (Hs f Hf). simpl in Hs. congruence.
    + injection Hl as Hl. lia.
    + injection He as He. lia.
    + injection Hp as Hp. by apply elements_inj.
  - intros (Hs & Hl & Hr & He & Hp). split; [|split; [split|split_and!]]; try done.
    + intros f Hf. simpl. by rewrite Hs.
    + by rewrite Hl.
    + by rewrite He.
    + by rewrite Hp.
Qed.

End NoChange.

Section RefreshProperties.

Variables (client : OpenAI) (now : string).

Lemma fresh_fields_field new_profile f :
  f ∈ simple_fields → field (fresh_fields new_profile) f = field new_profile f.
Proof.
  unfold simple_fields. rewrite !elem_of_cons, elem_of_nil.
  intros [->|[->|[->|[->|[->|[->|[->|[]]]]]]]]; reflexivity.
Qed.

Lemma set_field_field k v p f : f ≠ k → field (set_field k v p) f = field p f.
Proof. intros Hne. unfold field, set_field. simpl. by rewrite lookup_insert_ne. Qed.

Lemma written_fields u detected' con con' old_profile new_profile detected_changes :
  prepare_profile_updates client now old_profile new_profile detected_changes con
  = (Returned (u, detected'), con') →
  (∀ f, f ∈ simple_fields → field (fields_to_update u) f = field new_profile f)
  ∧ experience (fields_to_update u) = Some (default [] (experience new_profile))
  ∧ education (fields_to_update u) = Some (default [] (education new_profile))
  ∧ previous_companies (fields_to_update u)
    = Some (company_names (default [] (experience new_profile))).
Proof.
  unfold prepare_profile_updates, mbind, io_bind.
  destruct (check_profile_status_with_verification _ _ _ _ con) as [[c|] con1]; [|done].
  case_decide; intros [= <- <- <-]; simpl; (split; [|done]); intros f Hf.
  - rewrite !set_field_field; [by apply fresh_fields_field|..];
      intros ->; revert Hf; by apply (bool_decide_unpack _).
  - by apply fresh_fields_field.
Qed.

(** X8. What a refresh writes, read back as the stored profile, shows
    no change against the same fresh scrape: every simple field, the
    experience and education lists and the derived company names come
    from the fresh profile, whatever was stored and whatever the
    classification returned.  In particular the written company names
    are derived from the written experience. *)
Theorem refresh_writes_fresh_profile old_profile new_profile detected_changes con :
  ∃ u detected' con',
    prepare_profile_updates client now old_profile new_profile detected_changes con
    = (Returned (u, detected'), con')
    ∧ compare_profile_changes (fields_to_update u) new_profile = no_changes
    ∧ companies_derived (fields_to_update u).
Proof.
  destruct (prepare_writes_status client now old_profile new_profile detected_changes con)
    as (c & con' & u & detected' & _ & Hrun & _).
  exists u, detected', con'. split; [done|].
  destruct (written_fields _ _ _ _ _ _ _ Hrun) as (Hf & He & Hd & Hp).
  split.
  - apply no_changes_is_empty. apply no_changes_comparisons.
    unfold comparisons. rewrite He, Hd, Hp.
    rewrite !Forall_app, !Forall_cons, Forall_nil, Forall_fmap.
    split_and!; try done.
    + apply Forall_forall. intros f Hin. simpl. by rewrite Hf.
    + change (default [] (Some ?x)) with x.
      destruct (default [] (experience new_profile)); [done|].
      rewrite Forall_fmap. by apply Forall_forall.
  - unfold companies_derived. by rewrite He, Hp.
Qed.

End RefreshProperties.

Section RefreshOutcome.

Variables (client : OpenAI) (now : string).

Lemma metadata_keys :
  dom (metadata now)
  = ({[ "last_attempted_refresh_timestamp" ]} ∪ {[ "refresh_status" ]} : gset string).
Proof.
  unfold metadata. rewrite !dom_insert_L, dom_empty_L.
  by rewrite (right_id_L ∅ (∪)).
Qed.

Lemma status_never_compared old_profile new_profile :
  ("profile_status" ∉ changed_fields (compare_profile_changes old_profile new_profile))
  ∧ changes (compare_profile_changes old_profile new_profile) !! "profile_status" = None.
Proof.
  apply uncompared_unlisted. intros Hin.
  eapply elem_of_sublist in Hin; [|apply comparisons_sublist].
  revert Hin. by apply (bool_decide_unpack _).
Qed.

Lemma verification_auto_approved profile auto_approve old_status con :
  auto_approve
    && bool_decide (old_status = VStr (cand_status (get_profile_status client profile)))
    = true →
  check_profile_status_with_verification client profile auto_approve old_status con
  = (Returned (accepted (get_profile_status client profile)), con).
Proof.
  intros H. apply andb_true_iff in H as [-> H]. apply bool_decide_eq_true in H.
  by apply verification_skipped.
Qed.

(** X9. When every changed field is one of [follower_count],
    [connection_count] and [recent_experience_duration], and the
    candidate status is the stored status, the refresh goes through
    without the operator: the console is untouched, the fresh fields and
    the metadata are written, no status column is written, and the
    change set reported is the detected one. *)
Theorem auto_approved_refresh current_profile fresh_profile con :
  let detected := compare_profile_changes current_profile fresh_profile in
  has_changes detected = true →
  (∀ f, f ∈ changed_fields detected → f ∈ non_critical_fields) →
  field_or_none current_profile "profile_status"
    = VStr (cand_status (get_profile_status client fresh_profile)) →
  refresh_single_profile client now current_profile fresh_profile con
    = (Returned (Updates (fresh_fields fresh_profile) (metadata now), Some detected), con)
  ∧ ("profile_status"
       ∉ update_keys (Updates (fresh_fields fresh_profile) (metadata now)))
  ∧ ("status_confidence_label"
       ∉ update_keys (Updates (fresh_fields fresh_profile) (metadata now))).
Proof.
  intros detected Hchg Hall Hstatus. split; [|apply status_not_written].
  unfold refresh_single_profile. fold detected. rewrite Hchg.
  unfold prepare_profile_updates, mbind, io_bind.
  rewrite verification_auto_approved; last first.
  { apply andb_true_iff. split; [|by apply bool_decide_eq_true].
    apply auto_approve_flag_spec; [|done]. by apply compare_flag_agrees. }
  simpl. rewrite decide_False; [done|]. intros H. by apply H.
Qed.

(** X10. A refresh never writes a status column without having asked
    the operator: if [profile_status] is among the written keys, a
    change was detected, the confirmation prompt was shown, and the
    written status differs from the stored one. *)
Theorem status_written_only_after_confirmation current_profile fresh_profile con
    u reported con' :
  refresh_single_profile client now current_profile fresh_profile con
    = (Returned (u, reported), con') →
  "profile_status" ∈ update_keys u →
  has_changes (compare_profile_changes current_profile fresh_profile) = true
  ∧ confirmation_asked con con'
  ∧ ∃ written, fields (fields_to_update u) !! "profile_status" = Some written
               ∧ written ≠ field_or_none current_profile "profile_status".
Proof.
  unfold refresh_single_profile.
  destruct (has_changes (compare_profile_changes current_profile fresh_profile)) eqn:Hchg.
  - set (detected := compare_profile_changes current_profile fresh_profile).
    set (old_status := field_or_none current_profile "profile_status").
    destruct (prepare_writes_status client now current_profile fresh_profile detected con)
      as (c & con1 & u1 & detected1 & Hcheck & Hrun & Hdiff & Hsame).
    unfold mbind at 1, io_bind at 1. rewrite Hrun. intros [= <- _ <-] Hkey.
    split; [done|].
    destruct (decide (status c = old_status)) as [Heq|Hne].
    { by destruct (proj1 (Hsame Heq)). }
    split; [|exists (status c); split; [by apply Hdiff|done]].
    destruct (auto_approve_flag detected
              && bool_decide (old_status
                              = VStr (cand_status (get_profile_status client fresh_profile))))
      eqn:Hauto.
    + pose proof Hauto as Hauto'. apply andb_true_iff in Hauto' as [_ Hold].
      apply bool_decide_eq_true in Hold.
      rewrite (verification_auto_approved _ _ _ _ Hauto) in Hcheck.
      injection Hcheck as <- _. simpl in Hne. by rewrite Hold in Hne.
    + pose proof (verification_asked client fresh_profile _ _ con Hauto) as Hasked.
      subst old_status detected. by rewrite Hcheck in Hasked.
  - intros [= <- _ _] Hkey. exfalso. revert Hkey.
    unfold update_keys. simpl. rewrite metadata_keys, dom_empty_L.
    rewrite !elem_of_union, !elem_of_singleton, !elem_of_empty.
    intuition discriminate.
Qed.

End RefreshOutcome.

Lemma status_written_only_after_confirmation_witness :
  confirmation_asked (operator ["y"; "n"])
    (refresh_single_profile (replying "recently_quit|high") "2025-01-01T00:00:00"
       stored_ada fresh_ada_later (operator ["y"; "n"])).2.
Proof.
  destruct (refresh_single_profile (replying "recently_quit|high") "2025-01-01T00:00:00"
              stored_ada fresh_ada_later (operator ["y"; "n"]))
    as [[[u reported]|] con'] eqn:Hrun; [|vm_compute in Hrun; discriminate].
  apply (status_written_only_after_confirmation _ _ _ _ _ _ _ _ Hrun).
  vm_compute in Hrun. injection Hrun as <- _ _.
  apply (bool_decide_unpack _). vm_compute. exact I.
Defined.

Lemma auto_approved_refresh_witness :
  (refresh_single_profile (replying " Stealth | HIGH ") "2025-01-01T00:00:00"
     stored_ada fresh_ada_later quiet).2 = quiet.
Proof.
  assert (has_changes (compare_profile_changes stored_ada fresh_ada_later) = true) as Hchg
    by (vm_compute; reflexivity).
  assert (∀ f, f ∈ changed_fields (compare_profile_changes stored_ada fresh_ada_later) →
               f ∈ non_critical_fields) as Hall.
  { assert (changed_fields (compare_profile_changes stored_ada fresh_ada_later)
            = ["recent_experience_duration"]) as -> by (vm_compute; reflexivity).
    intros f Hf. apply list_elem_of_singleton in Hf. subst f.
    by apply (bool_decide_unpack _). }
  assert (field_or_none stored_ada "profile_status"
          = VStr (cand_status (get_profile_status (replying " Stealth | HIGH ")
                                 fresh_ada_later))) as Hstatus
    by (vm_compute; reflexivity).
  destruct (auto_approved_refresh (replying " Stealth | HIGH ") "2025-01-01T00:00:00"
              stored_ada fresh_ada_later quiet Hchg Hall Hstatus) as [-> _].
  reflexivity.
Defined.

Section ReportedChanges.

Variables (client : OpenAI) (now : string).

Lemma compare_changed_NoDup old_profile new_profile :
  NoDup (changed_fields (compare_profile_changes old_profile new_profile)).
Proof. rewrite compare_changed_fields. apply recorded_NoDup. Qed.

(** X11. The change set a refresh reports (from which the status
    history row is written) is the detected one, extended by
    [profile_status] exactly when a status column is written.  The
    entry then holds the stored status as the old value, the written
    status as the new one, and the written confidence label; the two
    statuses differ, and no field is listed twice. *)
Theorem reported_status_change current_profile fresh_profile con u reported con' :
  refresh_single_profile client now current_profile fresh_profile con
    = (Returned (u, Some reported), con') →
  let detected := compare_profile_changes current_profile fresh_profile in
  let old_status := field_or_none current_profile "profile_status" in
  NoDup (changed_fields reported)
  ∧ ("profile_status" ∈ changed_fields reported ↔ "profile_status" ∈ update_keys u)
  ∧ (∀ f, f ≠ "profile_status" →
          (f ∈ changed_fields reported ↔ f ∈ changed_fields detected)
          ∧ changes reported !! f = changes detected !! f)
  ∧ (changes reported !! "profile_status" = None
     ↔ "profile_status" ∉ changed_fields reported)
  ∧ ∀ c, changes reported !! "profile_status" = Some c →
         ∃ written label,
           c = Change (RVal old_status) (RVal written) (Some label)
           ∧ fields (fields_to_update u) !! "profile_status" = Some written
           ∧ fields (fields_to_update u) !! "status_confidence_label" = Some (VStr label)
           ∧ written ≠ old_status.
Proof.
  intros Hrun detected old_status. revert Hrun. unfold refresh_single_profile.
  fold detected.
  destruct (has_changes detected) eqn:Hchg; [|done].
  destruct (status_never_compared current_profile fresh_profile) as [Hnot Hnone].
  fold detected in Hnot, Hnone.
  pose proof (compare_changed_NoDup current_profile fresh_profile) as Hnodup.
  fold detected in Hnodup.
  unfold prepare_profile_updates, mbind, io_bind. fold old_status.
  destruct (verification_returns client fresh_profile (auto_approve_flag detected)
              old_status con) as (c & con1 & -> & _).
  destruct (decide (status c ≠ old_status)) as [Hne|Heq]; intros [= <- <- <-]; simpl.
  - split_and!.
    + apply NoDup_app. split_and!; [done| |apply NoDup_singleton].
      intros f Hf Hf'. apply list_elem_of_singleton in Hf'. by subst f.
    + split; intros _.
      * unfold update_keys. simpl. rewrite !elem_of_union, !elem_of_dom.
        do 4 left. rewrite lookup_insert_ne by done. rewrite lookup_insert_eq. by eexists.
      * apply elem_of_app. right. by apply list_elem_of_singleton.
    + intros f Hf. split; [|by rewrite lookup_insert_ne].
      rewrite elem_of_app, list_elem_of_singleton.
      split; [by intros [|]|by left].
    + rewrite lookup_insert_eq. split; [done|]. intros H. exfalso. apply H.
      apply elem_of_app. right. by apply list_elem_of_singleton.
    + intros c'. rewrite lookup_insert_eq. intros [= <-].
      exists (status c), (confidence_label c). split_and!; [done| |apply lookup_insert_eq|done].
      rewrite lookup_insert_ne by done. apply lookup_insert_eq.
  - destruct (status_not_written fresh_profile now) as [Hkey _].
    split_and!; [done|by split|done|by split|].
    intros c'. by rewrite Hnone.
Qed.

End ReportedChanges.

Lemma reported_status_change_witness :
  ∃ u reported con',
    refresh_single_profile (replying "recently_quit|high") "2025-01-01T00:00:00"
      stored_ada fresh_ada_later (operator ["y"; "n"]) = (Returned (u, Some reported), con')
    ∧ NoDup (changed_fields reported).
Proof.
  destruct (refresh_single_profile (replying "recently_quit|high") "2025-01-01T00:00:00"
              stored_ada fresh_ada_later (operator ["y"; "n"]))
    as [[[u [reported|]]|] con'] eqn:Hrun; [|vm_compute in Hrun; discriminate..].
  exists u, reported, con'. split; [reflexivity|].
  apply (reported_status_change _ _ _ _ _ _ _ _ Hrun).
Defined.

(* ===================================================================== *)
(** * The verification step, case by case *)
(* ===================================================================== *)

Section Verification.

Variables (client : OpenAI) (profile : profile).

(** X12. When the stored status is unknown (null, as on the insert
    path, which passes no [old_status]), [auto_approve] has no effect:
    the run is the one with [auto_approve] off, and the operator is
    asked to confirm. *)
Theorem unknown_old_status_always_asks auto_approve con :
  check_profile_status_with_verification client profile auto_approve VNone con
  = check_profile_status_with_verification client profile false VNone con
  ∧ confirmation_asked con
      (check_profile_status_with_verification client profile auto_approve VNone con).2.
Proof.
  assert (auto_approve
          && bool_decide (VNone = VStr (cand_status (get_profile_status client profile)))
          = false) as Hno.
  { rewrite bool_decide_eq_false_2 by done. apply andb_false_r. }
  split; [|by apply verification_asked].
  unfold check_profile_status_with_verification. by rewrite Hno.
Qed.

(** X13. Whatever the flags, the stored status and the console, the
    verification returns.  Either the status is null with confidence
    [low], which happens only when the operator's input has run out; or
    the status is a text with the candidate's confidence, and that text
    is the candidate's status or, after an answer other than [y], the
    line the operator typed next, trimmed and in lower case, whatever
    it is. *)
Theorem verification_outcome auto_approve old_status con :
  let cand := get_profile_status client profile in
  ∃ c con',
    check_profile_status_with_verification client profile auto_approve old_status con
    = (Returned c, con')
    ∧ ((c = Classification VNone "low" ∧ stdin con' = [] ∧ (length (stdin con) < 3)%nat)
       ∨ ∃ s, c = Classification (VStr s) (cand_confidence cand)
              ∧ (s = cand_status cand
                 ∨ ∃ answer typed rest,
                     stdin con = answer :: typed :: rest
                     ∧ Str.lower (Str.strip answer) ≠ "y"
                     ∧ s = Str.lower (Str.strip typed))).
Proof.
  intros cand. unfold check_profile_status_with_verification, try_except. fold cand.
  destruct (auto_approve && _).
  { do 2 eexists. split; [reflexivity|]. right. eexists. split; [reflexivity|by left]. }
  unfold mbind, io_bind, input, save_when, append_example, mret, io_ret.
  destruct con as [[|l1 [|l2 [|l3 ls]]] ps ex]; simpl;
    repeat (case_decide; simpl);
    do 2 eexists; (split; [reflexivity|]); simpl;
    first [ left; split_and!; [reflexivity|reflexivity|lia]
          | right; eexists; split; [reflexivity|]; by left
          | right; eexists; split; [reflexivity|]; right;
            do 3 eexists; split_and!; [reflexivity|done|reflexivity] ].
Qed.

(** X14. The verification only ever appends to the examples file, and
    at most one example: the one built from the profile with the status
    that is returned.  It shows prompts without removing any, and reads
    the operator's lines in order. *)
Theorem training_example_saved auto_approve old_status con :
  ∃ c con',
    check_profile_status_with_verification client profile auto_approve old_status con
    = (Returned c, con')
    ∧ (examples_file con' = examples_file con
       ∨ ∃ s, status c = VStr s
              ∧ examples_file con'
                = (examples_file con ++ [training_example profile s])%list)
    ∧ prompts con `prefix_of` prompts con'
    ∧ stdin con' `suffix_of` stdin con.
Proof.
  unfold check_profile_status_with_verification, try_except.
  destruct (auto_approve && _).
  { do 2 eexists. split; [reflexivity|]. split_and!; [by left|done..]. }
  unfold mbind, io_bind, input, save_when, append_example, mret, io_ret.
  destruct con as [[|l1 [|l2 [|l3 ls]]] ps ex]; simpl;
    repeat (case_decide; simpl);
    do 2 eexists; (split; [reflexivity|]); simpl;
    (split_and!;
     [ first [ by left | right; eexists; split; reflexivity ]
     | rewrite <- ?(assoc_L (++)); by apply prefix_app_r
     | first [ done | by apply suffix_cons_r
             | by do 2 apply suffix_cons_r | by do 3 apply suffix_cons_r ] ]).
Qed.

End Verification.

Section Candidates.

(** X15. A profile with no experience entry, or whose most recent
    entry lacks one of [company], [title], [duration] and [date_range],
    gets the candidate with the empty status and confidence [low],
    whatever the endpoint would reply. *)
Theorem unusable_experience_candidate p :
  (∀ e, head (default [] (experience p)) = Some e →
        ∃ k, k ∈ exp_fields ∧ e !! k = None) →
  ∀ client, get_profile_status client p = Candidate "" "low".
Proof.
  intros Hbad client. unfold get_profile_status, request_status.
  assert (create_prompt_with_examples p = None) as Hprompt.
  { unfold create_prompt_with_examples.
    destruct (experience p) as [[|e es]|]; [done| |done]. simpl in *.
    destruct (Hbad e eq_refl) as (k & Hk & Hnone).
    destruct (e !! "title") eqn:Ht; [simpl|done].
    destruct (e !! "company") eqn:Hc; [simpl|done].
    destruct (e !! "duration") eqn:Hd; [simpl|done].
    destruct (e !! "date_range") eqn:Hr; [simpl|done].
    exfalso.
    repeat (apply elem_of_cons in Hk as [->|Hk]); [congruence..|].
    by apply elem_of_nil in Hk. }
  by rewrite Hprompt.
Qed.

End Candidates.

Lemma unusable_experience_candidate_witness :
  get_profile_status (replying "stealth|high") no_experience = Candidate "" "low".
Proof.
  apply unusable_experience_candidate. intros e He. vm_compute in He. discriminate.
Defined.

(* ===================================================================== *)
(** * Trimming, lower case and splitting *)
(* ===================================================================== *)

Section Strings.

Implicit Types (s t : string) (c sep : ascii).

Lemma lower_ascii_idemp c : Str.lower_ascii (Str.lower_ascii c) = Str.lower_ascii c.
Proof. by destruct c as [[] [] [] [] [] [] [] []]. Qed.

Lemma lower_idemp s : Str.lower (Str.lower s) = Str.lower s.
Proof. induction s as [|c s IH]; simpl; [done|]. by rewrite lower_ascii_idemp, IH. Qed.

Lemma lower_cons c s :
  Str.lower (String c s) = String c s ↔ Str.lower_ascii c = c ∧ Str.lower s = s.
Proof. simpl. split; [by intros [= -> ->]|by intros [-> ->]]. Qed.

Lemma lstrip_lower s : Str.lower s = s → Str.lower (Str.lstrip s) = Str.lstrip s.
Proof.
  induction s as [|c s IH]; [done|]. intros H. pose proof H as H'.
  apply lower_cons in H' as [_ Hs]. simpl Str.lstrip.
  destruct (Str.is_space c); [by apply IH|done].
Qed.

Lemma rstrip_lower s : Str.lower s = s → Str.lower (Str.rstrip s) = Str.rstrip s.
Proof.
  induction s as [|c s IH]; [done|]. intros H.
  apply lower_cons in H as [Hc Hs]. specialize (IH Hs). simpl Str.rstrip.
  destruct (Str.rstrip s) as [|a r].
  - destruct (Str.is_space c); [done|]. apply lower_cons. by split.
  - apply lower_cons. by split.
Qed.

Lemma strip_lower s : Str.lower s = s → Str.lower (Str.strip s) = Str.strip s.
Proof. intros H. unfold Str.strip. by apply rstrip_lower, lstrip_lower. Qed.

Lemma split_lower sep s :
  Str.lower s = s → Forall (λ f, Str.lower f = f) (Str.split sep s).
Proof.
  induction s as [|c s IH]; [by repeat constructor|]. intros H.
  apply lower_cons in H as [Hc Hs]. specialize (IH Hs). simpl Str.split.
  destruct (decide (c = sep)); [by constructor|].
  destruct (Str.split sep s) as [|f fs].
  - constructor; [|constructor]. apply lower_cons. by split.
  - apply Forall_cons_1 in IH as [Hf Hfs]. constructor; [|done].
    apply lower_cons. by split.
Qed.

(** *** The separator *)

Lemma contains_char_cons sep c s :
  Str.contains (String sep "") (String c s)
  = bool_decide (sep = c) || Str.contains (String sep "") s.
Proof. simpl. by destruct (decide (sep = c)); [rewrite bool_decide_eq_true_2|rewrite bool_decide_eq_false_2]. Qed.

Lemma contains_char_nil sep : Str.contains (String sep "") "" = false.
Proof. done. Qed.

Lemma split_no_separator sep s :
  Forall (λ f, Str.contains (String sep "") f = false) (Str.split sep s).
Proof.
  induction s as [|c s IH]; [by repeat constructor|]. simpl Str.split.
  destruct (decide (c = sep)) as [->|Hne]; [by constructor|].
  destruct (Str.split sep s) as [|f fs].
  - repeat constructor. rewrite contains_char_cons, contains_char_nil.
    by rewrite bool_decide_eq_false_2.
  - apply Forall_cons_1 in IH as [Hf Hfs]. constructor; [|done].
    rewrite contains_char_cons, Hf. by rewrite bool_decide_eq_false_2.
Qed.

Lemma lstrip_no_separator sep s :
  Str.contains (String sep "") s = false →
  Str.contains (String sep "") (Str.lstrip s) = false.
Proof.
  induction s as [|c s IH]; [done|]. intros H. simpl Str.lstrip.
  destruct (Str.is_space c); [|done]. apply IH.
  rewrite contains_char_cons in H. by apply orb_false_iff in H as [_ H].
Qed.

Lemma rstrip_no_separator sep s :
  Str.contains (String sep "") s = false →
  Str.contains (String sep "") (Str.rstrip s) = false.
Proof.
  induction s as [|c s IH]; [done|]. rewrite contains_char_cons.
  intros H. apply orb_false_iff in H as [Hc Hs]. specialize (IH Hs). simpl Str.rstrip.
  destruct (Str.rstrip s) as [|a r].
  - destruct (Str.is_space c); [done|].
    by rewrite contains_char_cons, Hc, contains_char_nil.
  - by rewrite contains_char_cons, Hc, IH.
Qed.

(** *** Trimming twice *)

Lemma lstrip_no_lead s : no_lead Str.is_space (Str.lstrip s).
Proof.
  induction s as [|c s IH]; [done|]. simpl Str.lstrip.
  by destruct (Str.is_space c) eqn:Hc.
Qed.

Lemma lstrip_fixed s : no_lead Str.is_space s → Str.lstrip s = s.
Proof. destruct s as [|c s]; [done|]. simpl. by intros ->. Qed.

Lemma rstrip_no_lead s : no_lead Str.is_space s → no_lead Str.is_space (Str.rstrip s).
Proof.
  destruct s as [|c s]; [done|]. simpl. intros Hc.
  destruct (Str.rstrip s); [by rewrite Hc|done].
Qed.

Lemma rstrip_idemp s : Str.rstrip (Str.rstrip s) = Str.rstrip s.
Proof.
  induction s as [|c s IH]; [done|]. simpl Str.rstrip.
  destruct (Str.rstrip s) as [|a r] eqn:Hr.
  - destruct (Str.is_space c) eqn:Hc; [done|]. simpl. by rewrite Hc.
  - change (Str.rstrip (String c (String a r)))
      with (match Str.rstrip (String a r) with
            | EmptyString => if Str.is_space c then EmptyString else String c EmptyString
            | t' => String c t'
            end).
    by rewrite IH.
Qed.

Lemma strip_idemp s : Str.strip (Str.strip s) = Str.strip s.
Proof.
  unfold Str.strip.
  rewrite (lstrip_fixed (Str.rstrip (Str.lstrip s))).
  - apply rstrip_idemp.
  - apply rstrip_no_lead, lstrip_no_lead.
Qed.

Lemma strip_no_separator sep s :
  Str.contains (String sep "") s = false →
  Str.contains (String sep "") (Str.strip s) = false.
Proof. intros H. by apply rstrip_no_separator, lstrip_no_separator. Qed.

Lemma normalised_piece s f :
  f ∈ Str.split "|" (Str.lower s) → normalised (Str.strip f).
Proof.
  intros Hf. split_and!.
  - apply strip_lower.
    pose proof (split_lower "|" (Str.lower s) (lower_idemp s)) as Hall.
    by apply (proj1 (Forall_forall _ _) Hall).
  - apply strip_idemp.
  - apply (strip_no_separator "|").
    pose proof (split_no_separator "|" (Str.lower s)) as Hall.
    by apply (proj1 (Forall_forall _ _) Hall).
Qed.

(** X16. Whatever the endpoint replies, both components of the
    candidate are in lower case, carry no white space at either end and
    do not contain the separator [|]. *)
Theorem candidate_is_normalised (client : OpenAI) (p : profile) :
  normalised (cand_status (get_profile_status client p))
  ∧ normalised (cand_confidence (get_profile_status client p)).
Proof.
  unfold get_profile_status, request_status.
  destruct (create_prompt_with_examples p) as [prompt|]; simpl; [|by split].
  destruct (client prompt) as [content|]; simpl; [|by split].
  destruct (Str.split "|" (Str.lower (Str.strip content)))
    as [|status [|confidence_label [|more fs]]] eqn:Hsplit; simpl; try by split.
  split; apply (normalised_piece (Str.strip content)); rewrite Hsplit.
  - apply elem_of_cons; by left.
  - apply elem_of_cons; right; apply elem_of_cons; by left.
Qed.

End Strings.

(* ===================================================================== *)
(** * The scraper and the labels *)
(* ===================================================================== *)

Section TrailingSlash.

Implicit Types (s t url suffix : string).

Lemma endswith_spec suffix s : endswith suffix s = true ↔ ∃ pre, s = pre +:+ suffix.
Proof.
  induction s as [|c s IH]; simpl.
  - rewrite orb_false_r, bool_decide_eq_true. split.
    + intros ->. by exists "".
    + intros [[|a pre] H]; [done|]. by rewrite append_cons in H.
  - rewrite orb_true_iff, bool_decide_eq_true, IH. split.
    + intros [->|[pre ->]]; [by exists ""|].
      exists (String c pre). by rewrite append_cons.
    + intros [[|a pre] H]; [by left|].
      right. exists pre. rewrite append_cons in H. congruence.
Qed.

(** X17. [ensure_trailing_slash] returns a text that ends in a slash;
    it leaves a text unchanged exactly when that text already ends in
    one, and applying it twice is the same as applying it once. *)
Theorem trailing_slash_is_added_once url :
  (∃ pre, ensure_trailing_slash url = pre +:+ "/")
  ∧ (ensure_trailing_slash url = url ↔ ∃ pre, url = pre +:+ "/")
  ∧ ensure_trailing_slash (ensure_trailing_slash url) = ensure_trailing_slash url.
Proof.
  assert (∃ pre, ensure_trailing_slash url = pre +:+ "/") as Hends.
  { unfold ensure_trailing_slash. destruct (endswith "/" url) eqn:E.
    - by apply endswith_spec.
    - by exists url. }
  split_and!; [done| |].
  - unfold ensure_trailing_slash. destruct (endswith "/" url) eqn:E.
    + split; [intros _; by apply endswith_spec|done].
    + split.
      * intros H. apply (f_equal String.length) in H.
        rewrite length_append in H. simpl in H. lia.
      * intros H. apply endswith_spec in H. congruence.
  - apply endswith_spec in Hends. unfold ensure_trailing_slash at 1. by rewrite Hends.
Qed.

End TrailingSlash.

Section Founders.

Lemma occurs_in_longer kw head tail s :
  occurs_in (head +:+ kw +:+ tail) s → occurs_in kw s.
Proof.
  intros (pre & post & ->). exists (pre +:+ head), (tail +:+ post).
  by rewrite !append_assoc.
Qed.

Lemma contains_longer kw head tail s :
  Str.contains (head +:+ kw +:+ tail) s = true → Str.contains kw s = true.
Proof. rewrite !contains_spec. apply occurs_in_longer. Qed.

(** X18. A title counts as a founder role exactly when, in lower case,
    it contains [founder], [chief executive officer] or [ceo] anywhere:
    the keywords [co-founder] and [co founder] add nothing. *)
Theorem founder_keywords_overlap (e : entry) :
  let role := Str.lower (get e "title" "") in
  is_founder_role e
  = Str.contains "founder" role
    || Str.contains "chief executive officer" role
    || Str.contains "ceo" role.
Proof.
  intros role. unfold is_founder_role. fold role. simpl existsb.
  pose proof (contains_longer "founder" "co-" "" role) as Hdash.
  pose proof (contains_longer "founder" "co " "" role) as Hspace.
  change ("co-" +:+ "founder" +:+ "") with "co-founder" in Hdash.
  change ("co " +:+ "founder" +:+ "") with "co founder" in Hspace.
  destruct (Str.contains "co-founder" role); [by rewrite Hdash|].
  destruct (Str.contains "co founder" role); [by rewrite Hspace|].
  by rewrite orb_false_r, !orb_false_l, orb_assoc.
Qed.

End Founders.

Section RoleExtraction.


End RoleExtraction.

Section Scraper.

Implicit Types (data : profile_data) (exp edu : entry).

Lemma scraped_company exp : get (scraped_experience exp) "company" "" = get exp "company" "".
Proof. unfold get at 1, scraped_experience. by rewrite lookup_insert_eq. Qed.

Lemma scraped_truthy exp : truthy (scraped_experience exp) "company" = truthy exp "company".
Proof.
  unfold truthy, scraped_experience. rewrite lookup_insert_eq. unfold get.
  by destruct (exp !! "company").
Qed.

Lemma company_names_scraped exps :
  company_names (scraped_experience <$> exps) = company_names exps.
Proof.
  unfold company_names. induction exps as [|exp exps IH]; [done|].
  rewrite fmap_cons. simpl List.filter. rewrite scraped_truthy.
  destruct (truthy exp "company"); [|done].
  by rewrite !fmap_cons, scraped_company, IH.
Qed.

Lemma scraped_experience_keys exp :
  dom (scraped_experience exp)
  = (list_to_set ["company"; "company_linkedin_url"; "date_range"; "duration"; "title"]
     : gset string).
Proof. unfold scraped_experience. rewrite !dom_insert_L, dom_empty_L. reflexivity. Qed.




Lemma dom_fold_insert (f : string → value) (ks : list string) :
  dom (fold_right (λ k m, <[ k := f k ]> m) (∅ : gmap string value) ks)
  = (list_to_set ks : gset string).
Proof.
  induction ks as [|k ks IH]; [apply dom_empty_L|].
  simpl fold_right. rewrite dom_insert_L, IH. reflexivity.
Qed.

(** X20. Whatever the scraping service returns, the profile built from
    it has all ten scalar keys, experience entries with exactly the five
    keys [company], [company_linkedin_url], [date_range], [duration] and
    [title] (one entry per scraped experience), and a list of previous
    companies that is the list of non-empty company names of its own
    experience entries, in order. *)
Theorem scraped_profile_shape data :
  let p := linkedin_profile_scraper data in
  dom (fields p) = list_to_set scalar_keys
  ∧ (∃ exps, experience p = Some exps
             ∧ length exps = length (default [] (experiences data))
             ∧ Forall (λ exp, dom exp
                              = (list_to_set ["company"; "company_linkedin_url";
                                              "date_range"; "duration"; "title"]
                                 : gset string)) exps
             ∧ previous_companies p = Some (company_names exps))
  ∧ companies_derived p.
Proof.
  intros p. subst p. split_and!.
  - apply dom_fold_insert.
  - eexists. split; [reflexivity|]. split_and!.
    + by rewrite length_fmap.
    + apply Forall_fmap, Forall_forall. intros exp _. apply scraped_experience_keys.
    + simpl. by rewrite company_names_scraped.
  - unfold companies_derived, linkedin_profile_scraper. simpl.
    by rewrite company_names_scraped.
Qed.



End Scraper.


(* ===================================================================== *)
(** * Senior-operator labelling *)
(* ===================================================================== *)

Section SeniorOperator.

Variables (client : Chat) (system_prompt : string)
          (labeled_examples : list labeled_example) (max_examples : Z).

Implicit Types (p : profile) (con : console).

(** X23. When the profile has experience and the labelling call
    returns a reply, the label is a boolean: true exactly when the
    reply is [true], letter case aside.  Any other reply gives false;
    the operator is not asked and the console is left as it was. *)
Theorem senior_operator_from_reply p con reply :
  default [] (experience p) ≠ [] →
  senior_operator_labelling_call client system_prompt p labeled_examples max_examples
    = Some reply →
  check_senior_operator p client system_prompt labeled_examples max_examples con
  = (Returned (LBool (bool_decide (Str.lower reply = "true"))), con).
Proof.
  intros Hexp Hcall. unfold check_senior_operator, try_except.
  destruct (default [] (experience p)) as [|e es]; [done|]. rewrite Hcall.
  destruct (decide (Str.lower reply = "true")) as [Htrue|Hother].
  - by rewrite bool_decide_eq_true_2.
  - rewrite bool_decide_eq_false_2 by done. by case_decide.
Qed.

(** X24. When the profile has experience and the labelling call
    fails, the operator is asked.  The line typed is returned as text,
    trimmed and in lower case, and not as a boolean; when no line can
    be read the prompt is shown a second time and the function
    raises. *)
Theorem manual_senior_operator_label p con :
  default [] (experience p) ≠ [] →
  senior_operator_labelling_call client system_prompt p labeled_examples max_examples
    = None →
  (∀ line rest, stdin con = line :: rest →
      check_senior_operator p client system_prompt labeled_examples max_examples con
      = (Returned (LText (Str.lower (Str.strip line))),
         Console rest (prompts con ++ [manual_prompt]) (examples_file con)))
  ∧ (stdin con = [] →
     check_senior_operator p client system_prompt labeled_examples max_examples con
     = (Raised,
        Console [] (prompts con ++ [manual_prompt; manual_prompt]) (examples_file con))).
Proof.
  intros Hexp Hcall. unfold check_senior_operator, try_except.
  destruct (default [] (experience p)) as [|e es]; [done|]. rewrite Hcall.
  unfold mbind, io_bind, input, mret, io_ret.
  destruct con as [[|l ls] ps ex]; simpl; split.
  - by intros line rest.
  - intros _. by rewrite <- (assoc_L (++)).
  - by intros line rest [= <- <-].
  - done.
Qed.

(** X25. Whatever the endpoint and the operator do, a label of true
    comes only from a reply of [true] by the endpoint, and then nothing
    was read from the console; a label typed by the operator is always
    handed on as text. *)
Theorem senior_operator_label_origin p con l con' :
  check_senior_operator p client system_prompt labeled_examples max_examples con
    = (Returned l, con') →
  match l with
  | LBool b =>
      con' = con
      ∧ (b = true →
         ∃ reply,
           senior_operator_labelling_call client system_prompt p labeled_examples
             max_examples = Some reply
           ∧ Str.lower reply = "true")
  | LText s =>
      senior_operator_labelling_call client system_prompt p labeled_examples max_examples
        = None
      ∧ ∃ line, stdin con = line :: stdin con' ∧ s = Str.lower (Str.strip line)
  end.
Proof.
  unfold check_senior_operator, try_except.
  destruct (default [] (experience p)) as [|e es].
  { by intros [= <- <-]. }
  destruct (senior_operator_labelling_call _ _ _ _ _) as [reply|].
  - repeat case_decide; intros [= <- <-]; (split; [done|]); try done.
    intros _. by exists reply.
  - unfold mbind, io_bind, input, mret, io_ret.
    destruct con as [[|line rest] ps ex]; simpl; [done|].
    intros [= <- <-]. split; [done|]. by exists line.
Qed.

Lemma length_concat_pairs {A} (ls : list (list A)) :
  Forall (λ l, length l = 2%nat) ls → length (concat ls) = (2 * length ls)%nat.
Proof.
  induction 1 as [|l ls Hl _ IH]; [done|]. simpl. rewrite length_app, Hl, IH. lia.
Qed.

Lemma mapM_example_messages examples shots :
  mapM example_messages examples = Some shots →
  length shots = length examples ∧ Forall (λ l, length l = 2%nat) shots.
Proof.
  revert shots. induction examples as [|ex examples IH]; intros shots; simpl.
  - intros [= <-]. by split.
  - destruct (example_messages ex) as [two|] eqn:Hex; simpl; [|done].
    destruct (mapM example_messages examples) as [more|]; simpl; [|done].
    intros [= <-]. destruct (IH more eq_refl) as [Hlen Hall].
    split; [simpl; by rewrite Hlen|]. constructor; [|done].
    unfold example_messages in Hex.
    destruct (lex_experience ex); simpl in Hex; [|done].
    destruct (experience_text _); simpl in Hex; [|done].
    destruct (lex_full_name ex); simpl in Hex; [|done].
    destruct (lex_is_senior_operator ex); simpl in Hex; [|done].
    by injection Hex as <-.
Qed.

Lemma length_slice_to {A} (n : Z) (l : list A) :
  0 ≤ n → length (slice_to n l) = Nat.min (Z.to_nat n) (length l).
Proof. intros Hn. unfold slice_to. rewrite decide_False by lia. apply length_take. Qed.

(** X26. A reply of the labelling call is the endpoint's answer with
    the white space at both ends removed.  The request it answers opens
    with the system prompt, carries two messages for each of the first
    [max_examples] examples and closes with the profile; it can only be
    built when every experience entry of the profile has a title, a
    company and a duration. *)
Theorem labelling_request_shape p reply :
  0 ≤ max_examples →
  senior_operator_labelling_call client system_prompt p labeled_examples max_examples
    = Some reply →
  Str.strip reply = reply
  ∧ (∃ messages content,
       labelling_messages system_prompt p labeled_examples max_examples = Some messages
       ∧ client messages = Some content
       ∧ reply = Str.strip content
       ∧ head messages = Some ("system", system_prompt)
       ∧ length messages
         = (2 + 2 * Nat.min (Z.to_nat max_examples) (length labeled_examples))%nat)
  ∧ Forall (λ exp, is_Some (exp !! "title") ∧ is_Some (exp !! "company")
                   ∧ is_Some (exp !! "duration"))
      (default [] (experience p)).
Proof.
  intros Hn. unfold senior_operator_labelling_call.
  destruct (labelling_messages _ _ _ _) as [messages|] eqn:Hmsgs; simpl; [|done].
  destruct (client messages) as [content|] eqn:Hcontent; simpl; [|done].
  intros [= <-]. split; [apply strip_idemp|].
  revert Hmsgs. unfold labelling_messages.
  destruct (mapM _ _) as [shots|] eqn:Hshots; simpl; [|done].
  destruct (experience p) as [exps|]; simpl; [|done].
  destruct (experience_text exps) as [text|] eqn:Htext; simpl; [|done].
  intros [= <-].
  apply mapM_example_messages in Hshots as [Hlen Hall].
  split.
  - do 2 eexists. split_and!; [reflexivity|exact Hcontent|reflexivity|reflexivity|].
    unfold message in *.
    rewrite length_cons, length_app, (length_concat_pairs _ Hall), Hlen.
    rewrite length_slice_to by done. simpl length. lia.
  - simpl. unfold experience_text in Htext.
    destruct (mapM experience_line exps) as [lines|] eqn:Hlines; [|done].
    clear Htext. revert lines Hlines.
    induction exps as [|exp exps IH]; intros lines; [constructor|]. simpl.
    destruct (experience_line exp) as [line|] eqn:Hline; simpl; [|done].
    destruct (mapM experience_line exps) as [more|]; simpl; [|done].
    intros _. constructor; [|by eapply IH].
    unfold experience_line in Hline.
    destruct (exp !! "title"); simpl in Hline; [|done].
    destruct (exp !! "company"); simpl in Hline; [|done].
    destruct (exp !! "duration"); simpl in Hline; [|done].
    by split_and!.
Qed.

End SeniorOperator.

Lemma senior_operator_from_reply_witness :
  check_senior_operator stored_ada (λ _, Some " TRUE ") "Label the profile." [] 10 quiet
  = (Returned (LBool true), quiet).
Proof.
  apply (senior_operator_from_reply (λ _, Some " TRUE ") "Label the profile." [] 10
           stored_ada quiet "TRUE").
  - discriminate.
  - vm_compute. reflexivity.
Defined.

Lemma manual_senior_operator_label_witness :
  check_senior_operator stored_ada (λ _, None) "Label the profile." [] 10
    (operator ["False"])
  = (Returned (LText "false"), Console [] [manual_prompt] []).
Proof.
  destruct (manual_senior_operator_label (λ _, None) "Label the profile." [] 10
              stored_ada (operator ["False"])) as [Htyped _].
  - discriminate.
  - vm_compute. reflexivity.
  - apply (Htyped "False" []). reflexivity.
Defined.

Lemma senior_operator_label_origin_witness :
  senior_operator_labelling_call (λ _, None) "Label the profile." stored_ada [] 10 = None.
Proof.
  apply (senior_operator_label_origin (λ _, None) "Label the profile." [] 10
           stored_ada (operator ["False"]) (LText "false") (Console [] [manual_prompt] [])).
  vm_compute. reflexivity.
Defined.

Lemma labelling_request_shape_witness :
  Str.strip "TRUE" = "TRUE".
Proof.
  apply (labelling_request_shape (λ _, Some " TRUE ") "Label the profile." [] 10
           stored_ada "TRUE").
  - lia.
  - vm_compute. reflexivity.
Defined.

(* ===================================================================== *)
(** * Labelling a new profile *)
(* ===================================================================== *)

Section Prompts.









End Prompts.

Section NewProfile.

Variables (openai_client : Chat) (system_prompt : string)
          (labeled_examples : list labeled_example).

Implicit Types (p : profile) (con : console).




End NewProfile.

Section LabelColumns.

Implicit Types (profile_status : classification) (table_name : string).

Lemma company_param_cases table_name column :
  company_param table_name = Some column →
  (table_name = "Current-Employee-Profiles" ∧ column = "role_at_current_company")
  ∨ (table_name = "Unicorn-Stealth-Founder-Profiles" ∧ column = "role_at_company_searched").
Proof.
  unfold company_param. repeat case_decide; intros [= <-]; [by left|by right].
Qed.

Lemma company_param_none table_name :
  company_param table_name = None ↔
  table_name ≠ "Current-Employee-Profiles"
  ∧ table_name ≠ "Unicorn-Stealth-Founder-Profiles".
Proof.
  unfold company_param. repeat case_decide; split; try done.
  - by intros [? _].
  - by intros [_ ?].
Qed.

(** X28. The columns [update_profile_labels] writes are the labels
    [prepare_profile_w_labels] was given, all but the profile's
    address, which only selects the row; none of the defaults of
    [update_profile_labels] is used.  For a table that is neither of
    the two known ones no dictionary is built. *)
Theorem labels_round_trip profile_status is_repeat_founder role_search_company
    linkedin_url is_senior_operator table_name :
  match prepare_profile_w_labels profile_status is_repeat_founder role_search_company
          linkedin_url is_senior_operator table_name with
  | Some profile_labels =>
      ∃ column,
        company_param table_name = Some column
        ∧ update_profile_labels profile_labels table_name
          = Some (<[ "is_repeat_founder" := CBool is_repeat_founder ]> (
                  <[ column := CVal (VStr role_search_company) ]> (
                  <[ "is_senior_operator" := cell_of_label is_senior_operator ]> (
                  <[ "profile_status" := CVal (status profile_status) ]> (
                  <[ "status_confidence_label" :=
                       CVal (VStr (confidence_label profile_status)) ]> ∅)))))
  | None =>
      table_name ≠ "Current-Employee-Profiles"
      ∧ table_name ≠ "Unicorn-Stealth-Founder-Profiles"
  end.
Proof.
  unfold prepare_profile_w_labels, update_profile_labels.
  destruct (company_param table_name) as [column|] eqn:Hcolumn; simpl.
  - exists column. split; [done|]. f_equal.
    apply company_param_cases in Hcolumn as [[_ ->]|[_ ->]];
      apply map_eq; intros k; by simplify_map_eq.
  - by apply company_param_none.
Qed.

End LabelColumns.

(* ===================================================================== *)
(** * Durations: every match counts, and letter case does not *)
(* ===================================================================== *)

Section DurationProperties.

Implicit Types (s t rest : string) (c : ascii).




(** *** Lower case *)




















End DurationProperties.
